(** * TensorFlow2-tutorials: text generation and functional API scripts

    A shallow embedding of the pure Python parts of
    [Experts_tutorial/Text/text_generation.py] and of the [CustomDense]
    layers of [guide/keras/functional.py], with the framework calls they
    make (forward pass, sampling, dataset batching, weight saving) kept as
    explicit state passing over an event trace. *)

From Stdlib Require Import ZArith Ascii String DecimalString.
From stdpp Require Import base tactics option list sorting gmap strings pretty.

Open Scope Z_scope.
Open Scope nat_scope.

(** ** Python values: characters, exceptions, slices *)

(** A Python [str] is a sequence of Unicode code points; a character is its
    code point, and [sorted] on characters compares code points. *)
Abbreviation char := N (only parsing).

Inductive exn : Type :=
  | KeyError (key : N)          (* dict lookup of a missing character *)
  | KeyErrorStr (key : list N)  (* dict lookup of a missing string key *)
  | KeyErrorName (key : string) (* str.format with a missing keyword *)
  | IndexError                  (* index out of range (list, array, tensor) *)
  | AttributeError (name : string)
  | NameError (name : string)
  | TypeError
  | InvalidArgumentError        (* tf.errors.InvalidArgumentError *)
  | ValueError.

Inductive result (A : Type) : Type :=
  | Ok (a : A)
  | Raise (e : exn).
Arguments Ok {A} a.
Arguments Raise {A} e.

Definition rbind {A B} (r : result A) (k : A → result B) : result B :=
  match r with
  | Ok a => k a
  | Raise e => Raise e
  end.

Definition of_option {A} (e : exn) (o : option A) : result A :=
  match o with
  | Some a => Ok a
  | None => Raise e
  end.

(** Normalisation of one slice bound against a sequence of length [len]:
    negative bounds count from the end, everything is clamped to [0, len]. *)
Definition clamp_index (len i : Z) : Z :=
  if (i <? 0)%Z then Z.max (i + len) 0 else Z.min i len.

(** [l[lo:hi]] with step 1; [None] is an omitted bound. *)
Definition py_slice {A} (lo hi : option Z) (l : list A) : list A :=
  let n := Z.of_nat (length l) in
  let a := from_option (clamp_index n) 0%Z lo in
  let b := from_option (clamp_index n) n hi in
  take (Z.to_nat (b - a)) (drop (Z.to_nat a) l).

(** ** text_generation.py: training examples *)

(** [def split_input_target(chunk)] *)
Definition split_input_target {A} (chunk : list A) : list A * list A :=
  let input_text := py_slice None (Some (-1)%Z) chunk in
  let target_text := py_slice (Some 1%Z) None chunk in
  (input_text, target_text).

(** ** text_generation.py: vocabulary and lookup tables *)

(** [set(text)]: the characters occurring in the text. *)
Definition py_set (text : list char) : gset char := list_to_set text.

(** [sorted(s)] over a set of characters: ascending code points. *)
Definition sorted (s : gset char) : list char := merge_sort N.le (elements s).

(** [vocab = sorted(set(text))] *)
Definition vocab (text : list char) : list char := sorted (py_set text).

(** [vocab_size = len(vocab)] *)
Definition vocab_size (text : list char) : nat := length (vocab text).

(** [enumerate(l, start)] *)
Fixpoint enumerate_from {A} (start : nat) (l : list A) : list (nat * A) :=
  match l with
  | [] => []
  | u :: l' => (start, u) :: enumerate_from (S start) l'
  end.

Definition enumerate {A} (l : list A) : list (nat * A) := enumerate_from 0 l.

(** [{u: i for i, u in enumerate(...)}]: the comprehension stores the pairs
    one after the other, a later pair overwriting an earlier one with the
    same key. *)
Definition dict_of_pairs (d : gmap char nat) (ps : list (nat * char)) : gmap char nat :=
  foldl (λ d p, <[p.2 := p.1]> d) d ps.

(** [char2idx = {u: i for i, u in enumerate(vocab)}] *)
Definition char2idx_of (vocab : list char) : gmap char nat :=
  dict_of_pairs ∅ (enumerate vocab).

(** An element of a NumPy array of one-character strings (dtype [<U1])
    read back as a string: the fixed-width buffer drops trailing null code
    points, so [U+0000] reads as the empty string. *)
Definition np_str (c : char) : list char :=
  if bool_decide (c = 0%N) then [] else [c].

(** [idx2char = np.array(vocab)], as the strings its elements read as;
    indexed at a non-negative index. *)
Definition idx2char_of (vocab : list char) : list (list char) := np_str <$> vocab.

Definition char2idx (text : list char) : gmap char nat := char2idx_of (vocab text).
Definition idx2char (text : list char) : list (list char) := idx2char_of (vocab text).

(** [d[c]]: a missing key raises [KeyError]. *)
Definition dict_get (d : gmap char nat) (c : char) : result nat :=
  of_option (KeyError c) (d !! c).


(** [arr[i]] at a non-negative index: past the end raises [IndexError]. *)
Definition np_getitem {A} (arr : list A) (i : nat) : result A :=
  of_option IndexError (arr !! i).

(** [[d[c] for c in s]]: the first missing key aborts the comprehension. *)
Fixpoint vectorize (d : gmap char nat) (s : list char) : result (list nat) :=
  match s with
  | [] => Ok []
  | c :: s' =>
      rbind (dict_get d c) (λ i,
      rbind (vectorize d s') (λ rest, Ok (i :: rest)))
  end.

(** [text_as_int = np.array([char2idx[c] for c in text])] *)
Definition text_as_int (text : list char) : result (list nat) :=
  vectorize (char2idx text) text.

(** The number of distinct characters of a text, counted directly: a
    character counts when it does not occur again later. *)
Fixpoint count_distinct (text : list char) : nat :=
  match text with
  | [] => 0
  | c :: text' =>
      if bool_decide (c ∈ text') then count_distinct text'
      else S (count_distinct text')
  end.


(** ** text_generation.py: the input pipeline *)

(** [tf.data.Dataset.batch(batch_size, drop_remainder)] read as an
    iterator over a finite stream: elements are collected into a buffer
    that is emitted when it holds [batch_size] of them; at the end of the
    stream a partial buffer is emitted unless [drop_remainder] is set. *)
Fixpoint batch_go {A} (batch_size : nat) (drop_remainder : bool)
    (buf : list A) (s : list A) : list (list A) :=
  match s with
  | [] =>
      match buf with
      | [] => []
      | _ => if drop_remainder then [] else [buf]
      end
  | x :: s' =>
      let buf' := buf ++ [x] in
      if decide (length buf' = batch_size)
      then buf' :: batch_go batch_size drop_remainder [] s'
      else batch_go batch_size drop_remainder buf' s'
  end.

Definition batch {A} (batch_size : nat) (drop_remainder : bool) (s : list A) :
    list (list A) :=
  batch_go batch_size drop_remainder [] s.

(** [seq_length = 100] *)
Definition seq_length : nat := 100.

(** [examples_per_epoch = len(text) // seq_length] *)
Definition examples_per_epoch (text : list char) : nat := length text / seq_length.

(** [char_dataset = tf.data.Dataset.from_tensor_slices(text_as_int)]: the
    stream of the vector's elements. *)
Definition char_dataset (ints : list nat) : list nat := ints.

(** [sequences = char_dataset.batch(seq_length + 1, drop_remainder=True)] *)
Definition sequences (ints : list nat) : list (list nat) :=
  batch (seq_length + 1) true (char_dataset ints).

(** [dataset = sequences.map(split_input_target)] *)
Definition dataset (ints : list nat) : list (list nat * list nat) :=
  split_input_target <$> sequences ints.

(** The pipeline from the corpus on: vectorise, then build the examples. *)
Definition dataset_of_text (text : list char) : result (list (list nat * list nat)) :=
  rbind (text_as_int text) (λ ints, Ok (dataset ints)).

(** [BATCH_SIZE = 64] *)
Definition BATCH_SIZE : nat := 64.

(** ** Statements

    Statements run over a world [W] by state passing and may raise: an
    exception keeps the effects made before it and skips the rest. The
    scripts have no [try], so there is no operation that handles one. *)
Definition M (W A : Type) : Type := W → result A * W.

Definition ret {W A} (a : A) : M W A := λ w, (Ok a, w).

Definition bind {W A B} (m : M W A) (k : A → M W B) : M W B :=
  λ w, match m w with
       | (Ok a, w') => k a w'
       | (Raise e, w') => (Raise e, w')
       end.

Definition lift {W A} (r : result A) : M W A := λ w, (r, w).

(** [for i in range(n): vars = body(i, vars)], counting from [i]. *)
Fixpoint for_range {W V} (n i : nat) (body : nat → V → M W V) (vars : V) : M W V :=
  match n with
  | 0 => ret vars
  | S n' => bind (body i vars) (for_range n' (S i) body)
  end.

(** ** text_generation.py: text generation *)

(** Calls into the framework made while generating, in program order,
    each with what it was given and what it gave back. *)
Inductive event (logits : Type) : Type :=
  | ResetStates                                             (* model.reset_states() *)
  | Forward (input_eval : list nat) (outcome : result (list logits))  (* model(input_eval) *)
  | Categorical (predictions : list logits) (drawn : list nat)  (* tf.random.categorical *)
  | Print (line : list char).                               (* print(...) *)
Arguments ResetStates {logits}.
Arguments Forward {logits} _ _.
Arguments Categorical {logits} _ _.
Arguments Print {logits} _.

(** The forward-pass inputs recorded in a trace, and the classes read
    off the sampler's draws (the last row of each draw). *)
Definition forward_inputs {logits} (tr : list (event logits)) : list (list nat) :=
  omap (λ ev, match ev with Forward x _ => Some x | _ => None end) tr.

Definition sampled_ids {logits} (tr : list (event logits)) : list nat :=
  omap (λ ev, match ev with Categorical _ drawn => last drawn | _ => None end) tr.

(** What the script relies on from the framework: on at least one time
    step the model returns one row of logits per time step
    ([return_sequences=True]), the sampler draws one class per row, and
    every drawn class is below the number of classes (the width
    [vocab_size] of the final [Dense] layer). *)
Definition framework_ok {logits mstate rng : Type}
    (model_call : mstate → list nat → result (mstate * list logits))
    (categorical : rng → list logits → rng * list nat)
    (classes : nat) : Prop :=
  (∀ st xs, xs ≠ [] →
     ∃ st' ps, model_call st xs = Ok (st', ps) ∧ length ps = length xs) ∧
  (∀ g ps, length (categorical g ps).2 = length ps) ∧
  (∀ g ps, Forall (λ id, id < classes) (categorical g ps).2).

(** On zero time steps a model either raises (as the script's LSTM does)
    or has no row of logits to return. *)
Definition no_row_without_step {logits mstate : Type}
    (model_call : mstate → list nat → result (mstate * list logits)) : Prop :=
  ∀ st st' ps, model_call st [] = Ok (st', ps) → ps = [].

Section framework.
(** What the script takes from the framework: a stateful model (weights
    and recurrent state) whose forward pass may raise, one row of logits
    per time step, a scalar type with tensor-by-scalar division, and a
    sampler with its own state that draws one class per row of logits
    ([num_samples=1]). *)
Context {logits scalar mstate rng : Type}.
Variable model_reset_states : mstate → mstate.
Variable model_call : mstate → list nat → result (mstate * list logits).
Variable tensor_div : logits → scalar → logits.
Variable one_point_zero : scalar.
Variable categorical : rng → list logits → rng * list nat.

Record world : Type := World {
  model_state : mstate;
  rng_state : rng;
  trace : list (event logits);
}.

Definition log (ev : event logits) (w : world) : world :=
  World (model_state w) (rng_state w) (trace w ++ [ev]).

(** [model.reset_states()] *)
Definition reset_states : M world unit :=
  λ w, (Ok (), log ResetStates
                 (World (model_reset_states (model_state w)) (rng_state w) (trace w))).

(** [tf.squeeze(model(input_eval), 0)] for a batch of one sequence. *)
Definition call_model (input_eval : list nat) : M world (list logits) :=
  λ w, match model_call (model_state w) input_eval with
       | Ok (st, predictions) =>
           (Ok predictions,
            log (Forward input_eval (Ok predictions)) (World st (rng_state w) (trace w)))
       | Raise e => (Raise e, log (Forward input_eval (Raise e)) w)
       end.

(** [tf.random.categorical(predictions, num_samples=1)], as the column
    of drawn classes. *)
Definition random_categorical (predictions : list logits) : M world (list nat) :=
  λ w, let '(g, drawn) := categorical (rng_state w) predictions in
       (Ok drawn,
        log (Categorical predictions drawn) (World (model_state w) g (trace w))).

(** [print(s)] *)
Definition print (s : list char) : M world unit := λ w, (Ok (), log (Print s) w).

(** The lookup tables are the module's globals. *)
Variable char2idx_global : gmap char nat.
Variable idx2char_global : list (list char).

(** One iteration of the loop of [generate_text] on the loop variables
    [(input_eval, text_generated)]. *)
Definition generate_step (temperature : scalar) (i : nat)
    (vars : list nat * list (list char)) : M world (list nat * list (list char)) :=
  let '(input_eval, text_generated) := vars in
  bind (call_model input_eval) (λ predictions,
  let predictions := (λ p, tensor_div p temperature) <$> predictions in
  bind (random_categorical predictions) (λ drawn,
  (* [...][-1, 0]: the class drawn for the last row *)
  bind (lift (of_option InvalidArgumentError (last drawn))) (λ predicted_id,
  let input_eval := [predicted_id] in
  bind (lift (np_getitem idx2char_global predicted_id)) (λ s,
  ret (input_eval, text_generated ++ [s]))))).

(** [def generate_text(model, start_string)] *)
Definition generate_text (start_string : list char) : M world (list char) :=
  let num_generate := 1000 in
  bind (lift (vectorize char2idx_global start_string)) (λ input_eval,
  let text_generated := [] in
  let temperature := one_point_zero in
  bind reset_states (λ _,
  bind (for_range num_generate 0 (generate_step temperature)
          (input_eval, text_generated)) (λ vars,
  (* start_string + ''.join(text_generated) *)
  ret (start_string ++ concat vars.2)))).

(** [print(generate_text(model, start_string=...))] at the top level. *)
Definition print_generate_text (start_string : list char) : M world unit :=
  bind (generate_text start_string) print.

(** The sampling loop as it is described, for comparison: [n] iterations
    from a model state, a sampler state and an input; each runs the
    forward pass on the input, divides the resulting logits by the
    temperature, lets the sampler draw from exactly those, reads the class
    of the last row and makes it the next input. The relation lists the
    framework calls, the classes read and the states left behind. *)
Inductive spec_sampling_run :
    nat → mstate → rng → list nat → list (event logits) → list nat → mstate → rng → Prop :=
  | spec_run_done st g input_eval :
      spec_sampling_run 0 st g input_eval [] [] st g
  | spec_run_iteration n st g input_eval st' predictions g' drawn predicted_id
      evs ids st_end g_end :
      model_call st input_eval = Ok (st', predictions) →
      categorical g ((λ p, tensor_div p one_point_zero) <$> predictions) = (g', drawn) →
      last drawn = Some predicted_id →
      spec_sampling_run n st' g' [predicted_id] evs ids st_end g_end →
      spec_sampling_run (S n) st g input_eval
        (Forward input_eval (Ok predictions)
         :: Categorical ((λ p, tensor_div p one_point_zero) <$> predictions) drawn
         :: evs)
        (predicted_id :: ids) st_end g_end.
End framework.

Arguments World {logits mstate rng} _ _ _.
Arguments model_state {logits mstate rng} _.
Arguments rng_state {logits mstate rng} _.
Arguments trace {logits mstate rng} _.

(** A small deterministic instance of the framework interface, to run the
    definitions: logits carry the input index, the model counts its calls
    and, like the script's LSTM, raises on zero time steps, and the sampler
    draws class [(seed + logit) mod classes] and advances. *)
Definition toy_reset (st : nat) : nat := 0.
Definition toy_call (st : nat) (xs : list nat) : result (nat * list nat) :=
  match xs with
  | [] => Raise InvalidArgumentError
  | _ => Ok (S st, xs)
  end.
Definition toy_div (p : nat) (t : unit) : nat := p.
Definition toy_categorical (classes : nat) (g : nat) (ps : list nat) : nat * list nat :=
  (S g, (λ p, (g + p) `mod` classes) <$> ps).

Definition toy_generate_text (text start_string : list char) :
    result (list char) * world (logits := nat) (mstate := nat) (rng := nat) :=
  generate_text toy_reset toy_call toy_div () (toy_categorical (vocab_size text))
    (char2idx text) (idx2char text) start_string (World 7 0 []).

(** ** text_generation.py: checkpoints and training *)

(** [str(n)] for a non-negative integer. *)
Definition py_str (n : nat) : string := pretty n.

(** The last character of a string, if any. *)
Fixpoint str_last (s : string) : option ascii :=
  match s with
  | EmptyString => None
  | String c EmptyString => Some c
  | String _ rest => str_last rest
  end.

(** [os.path.join(a, b)] on POSIX: an absolute second part replaces the
    first; otherwise the parts are joined with one separator. *)
Definition os_path_join (a b : string) : string :=
  if String.prefix "/" b then b
  else if bool_decide (a = "") || bool_decide (str_last a = Some "/"%char)
       then a +:+ b
       else a +:+ "/" +:+ b.

(** [template.format(name=value, ...)] for templates with plain named fields
    [{name}] (no escapes, conversions or format specs): the scanner copies
    characters and, between braces, collects a field name that is looked
    up among the keyword arguments. *)
Fixpoint format_go (kwargs : gmap string string) (field : option string)
    (template : string) : result string :=
  match template with
  | EmptyString =>
      match field with
      | None => Ok EmptyString
      | Some _ => Raise ValueError
      end
  | String c rest =>
      match field with
      | None =>
          if bool_decide (c = "{"%char) then format_go kwargs (Some EmptyString) rest
          else if bool_decide (c = "}"%char) then Raise ValueError
          else rbind (format_go kwargs None rest) (λ out, Ok (String c out))
      | Some name =>
          if bool_decide (c = "}"%char)
          then rbind (of_option (KeyErrorName name) (kwargs !! name)) (λ v,
               rbind (format_go kwargs None rest) (λ out, Ok (v +:+ out)))
          else format_go kwargs (Some (name +:+ String c EmptyString)) rest
      end
  end.

Definition str_format (template : string) (kwargs : gmap string string) : result string :=
  format_go kwargs None template.

(** [checkpoint_dir = './training_checkpoints'] *)
Definition checkpoint_dir : string := "./training_checkpoints".

(** [checkpoint_prefix = os.path.join(checkpoint_dir, "ckpt_{epoch}")] *)
Definition checkpoint_prefix : string := os_path_join checkpoint_dir "ckpt_{epoch}".

(** [checkpoint_prefix.format(epoch=n)] *)
Definition format_checkpoint_prefix (n : nat) : result string :=
  str_format checkpoint_prefix {[ "epoch" := py_str n ]}.

(** [EPOCHS = 10] *)
Definition EPOCHS : nat := 10.

(** What training does to the outside, in program order. Only the two
    save events write files; steps work on the model in memory and prints
    go to the console. *)
Inductive train_event : Type :=
  | TrainReset                        (* model.reset_states() *)
  | TrainStep (epoch batch_n : nat)   (* one optimisation step on a batch *)
  | TrainPrint                        (* print(...) *)
  | SaveWeights (path : string)       (* weights-only serialisation *)
  | SaveModel (path : string).        (* whole-model serialisation *)

(** The files written in a trace, each with whether the write was
    weights-only. *)
Definition saves (tr : list train_event) : list (string * bool) :=
  omap (λ ev, match ev with
              | SaveWeights p => Some (p, true)
              | SaveModel p => Some (p, false)
              | _ => None
              end) tr.

Definition emit (ev : train_event) : M (list train_event) unit :=
  λ tr, (Ok (), tr ++ [ev]).

(** [model.save_weights(path)] *)
Definition save_weights (path : string) : M (list train_event) unit :=
  emit (SaveWeights path).

(** [tf.keras.callbacks.ModelCheckpoint(filepath, save_weights_only)] *)
Record ModelCheckpoint : Type := {
  filepath : string;
  save_weights_only : bool;
}.

(** [checkpoint_callback] *)
Definition checkpoint_callback : ModelCheckpoint :=
  {| filepath := checkpoint_prefix; save_weights_only := true |}.

(** The callback at the end of an epoch, as the framework documents it:
    the file path is formatted with the 1-based epoch number and the model
    is saved there, weights only when the flag is set. *)
Definition on_epoch_end (cb : ModelCheckpoint) (epoch : nat) : M (list train_event) unit :=
  bind (lift (str_format (filepath cb) {[ "epoch" := py_str (epoch + 1) ]})) (λ path,
  emit (if save_weights_only cb then SaveWeights path else SaveModel path)).

(** [model.fit(dataset, epochs, callbacks=[cb])] over a dataset of
    [nbatches] batches: every epoch trains on each batch and then runs the
    callback. *)
Definition model_fit (nbatches epochs : nat) (cb : ModelCheckpoint) :
    M (list train_event) unit :=
  for_range epochs 0 (λ epoch _,
    bind (for_range nbatches 0 (λ batch_n _, emit (TrainStep epoch batch_n)) ()) (λ _,
    on_epoch_end cb epoch)) ().

(** [history = model.fit(dataset, epochs=EPOCHS, callbacks=[checkpoint_callback])] *)
Definition fit_script (nbatches : nat) : M (list train_event) unit :=
  model_fit nbatches EPOCHS checkpoint_callback.

(** The inner loop of the custom training loop. The loop variable is
    whether the name [loss] is bound to a loss value: before the first
    step it still names the function [loss] defined earlier. *)
Definition train_batches (nbatches epoch : nat) (loss_bound : bool) :
    M (list train_event) bool :=
  for_range nbatches 0 (λ batch_n _,
    bind (emit (TrainStep epoch batch_n)) (λ _,
    bind (if batch_n `mod` 100 =? 0 then emit TrainPrint else ret ()) (λ _,
    ret true))) loss_bound.

(** One pass of [for epoch in range(EPOCHS)], on the variables
    [(epoch, loss)]: the last value of the loop index and whether [loss]
    is bound to a loss value. *)
Definition train_epoch (nbatches : nat) (epoch : nat) (vars : option nat * bool) :
    M (list train_event) (option nat * bool) :=
  bind (emit TrainReset) (λ _,
  bind (train_batches nbatches epoch vars.2) (λ loss_bound,
  (* saving (checkpoint) the model every 5 epochs *)
  bind (if (epoch + 1) `mod` 5 =? 0
        then bind (lift (format_checkpoint_prefix epoch)) save_weights
        else ret ()) (λ _,
  (* 'Epoch {} Loss {:.4f}'.format(epoch + 1, loss) *)
  bind (if loss_bound then emit TrainPrint else lift (Raise TypeError)) (λ _,
  bind (emit TrainPrint) (λ _,
  ret (Some epoch, loss_bound)))))).

(** The custom training loop with the save after it, which reads the
    loop index left behind by the loop. *)
Definition custom_training (nbatches epochs : nat) : M (list train_event) unit :=
  bind (for_range epochs 0 (train_epoch nbatches) (None, false)) (λ vars,
  bind (lift (of_option (NameError "epoch") vars.1)) (λ epoch,
  bind (lift (format_checkpoint_prefix epoch)) save_weights)).

Definition custom_training_script (nbatches : nat) : M (list train_event) unit :=
  custom_training nbatches EPOCHS.

(** The trace of training written out directly, to compare with: the
    path of the checkpoint of an epoch, the events of one epoch of the
    custom loop, and the events of one epoch of [fit]. *)
Definition spec_checkpoint_path (n : nat) : string :=
  "./training_checkpoints/ckpt_" +:+ py_str n.

Definition spec_batch_events (nbatches epoch : nat) : list train_event :=
  flat_map (λ batch_n,
    TrainStep epoch batch_n :: if batch_n `mod` 100 =? 0 then [TrainPrint] else [])
    (seq 0 nbatches).

Definition spec_epoch_events (nbatches epoch : nat) : list train_event :=
  TrainReset :: spec_batch_events nbatches epoch
  ++ (if (epoch + 1) `mod` 5 =? 0 then [SaveWeights (spec_checkpoint_path epoch)] else [])
  ++ [TrainPrint; TrainPrint].

Definition spec_fit_epoch_events (nbatches epoch : nat) : list train_event :=
  (TrainStep epoch <$> seq 0 nbatches)
  ++ [SaveWeights (spec_checkpoint_path (epoch + 1))].

(** ** functional.py: the custom dense layers *)

(** Tensors over a scalar type [R] whose addition and multiplication are
    left abstract (the scripts compute in floating point; nothing below
    uses an algebraic law). A rank-2 tensor keeps its shape next to its
    rows, a rank-1 tensor is the list of its entries. *)
Module Tensor.
Record tensor2 (R : Type) : Type := Tensor2 {
  dim0 : nat;
  dim1 : nat;
  data : list (list R);
}.
Arguments Tensor2 {R} _ _ _.
Arguments dim0 {R} _.
Arguments dim1 {R} _.
Arguments data {R} _.

(** The rows agree with the recorded shape. *)
Definition well_shaped {R} (t : tensor2 R) : Prop :=
  length (data t) = dim0 t ∧ Forall (λ row, length row = dim1 t) (data t).

Section ops.
Context {R : Type} (radd rmul : R → R → R) (rzero : R).

(** One row times a matrix, accumulating scaled rows of the matrix. *)
Definition row_matmul (cols : nat) (xrow : list R) (w : list (list R)) : list R :=
  foldl (λ acc p, zip_with radd acc (rmul p.1 <$> p.2))
        (replicate cols rzero) (zip xrow w).

(** [tf.matmul(a, b)] on rank-2 tensors; the inner dimensions must
    agree. *)
Definition matmul (a b : tensor2 R) : result (tensor2 R) :=
  if bool_decide (dim1 a = dim0 b)
  then Ok (Tensor2 (dim0 a) (dim1 b)
             ((λ xrow, row_matmul (dim1 b) xrow (data b)) <$> data a))
  else Raise ValueError.

(** [t + v] with the vector broadcast over the rows of [t]. *)
Definition add_broadcast (t : tensor2 R) (v : list R) : result (tensor2 R) :=
  if bool_decide (dim1 t = length v)
  then Ok (Tensor2 (dim0 t) (dim1 t) ((λ row, zip_with radd row v) <$> data t))
  else Raise ValueError.

(** The dot product of a row with column [j] of a matrix, summed from
    the left starting at zero. *)
Definition dot (u v : list R) : R := foldl radd rzero (zip_with rmul u v).

Definition column (j : nat) (w : list (list R)) : list R :=
  (λ row, nth j row rzero) <$> w.
End ops.

(** A shape is a list of dimensions, [None] for one not known yet (the
    batch dimension of [keras.Input((4,))]); a weight needs known ones.

    [add_weight(shape=(d0, d1), initializer)] and
    [add_weight(shape=(d,), initializer)]: a fresh tensor of the asked
    shape, filled with the initializer's values. *)
Definition add_weight2 {R} (init : nat → nat → R) (d0 d1 : nat) : tensor2 R :=
  Tensor2 d0 d1 ((λ i, init i <$> seq 0 d1) <$> seq 0 d0).

Definition add_weight1 {R} (init : nat → R) (d : nat) : list R :=
  init <$> seq 0 d.
End Tensor.

(** [class CustomDense(layers.Layer)], first version. *)
Module CustomDense.
Import Tensor.

Record t (R : Type) : Type := Layer {
  units : nat;
  w : option (tensor2 R);
  b : option (list R);
}.
Arguments Layer {R} _ _ _.
Arguments units {R} _.
Arguments w {R} _.
Arguments b {R} _.

Section methods.
Context {R : Type} (radd rmul : R → R → R) (rzero : R).
(** The values drawn by the ['random_normal'] initializers. *)
Variable random_normal_w : nat → nat → R.
Variable random_normal_b : nat → R.

(** [def __init__(self, units=32)] *)
Definition init (units : option nat) : t R :=
  Layer (default 32 units) None None.

(** [def build(self, input_shape)] *)
Definition build (self : t R) (input_shape : list (option nat)) : result (t R) :=
  rbind (of_option IndexError (last input_shape)) (λ last_dim,
  rbind (of_option ValueError last_dim) (λ input_dim,
  let w := add_weight2 random_normal_w input_dim (units self) in
  let b := add_weight1 random_normal_b (units self) in
  Ok (Layer (units self) (Some w) (Some b)))).

(** [def call(self, inputs)] *)
Definition call (self : t R) (inputs : tensor2 R) : result (tensor2 R) :=
  rbind (of_option (AttributeError "w") (w self)) (λ w,
  rbind (matmul radd rmul rzero inputs w) (λ product,
  rbind (of_option (AttributeError "b") (b self)) (λ b,
  add_broadcast radd product b))).
End methods.
End CustomDense.

(** [class CustomDense(layers.Layer)], second version, with
    [get_config]. *)
Module CustomDenseConfig.
Import Tensor.

Record t (R : Type) : Type := Layer {
  units : nat;
  w : option (tensor2 R);
  b : option (list R);
}.
Arguments Layer {R} _ _ _.
Arguments units {R} _.
Arguments w {R} _.
Arguments b {R} _.

Section methods.
Context {R : Type} (radd rmul : R → R → R) (rzero : R).
Variable random_normal_w : nat → nat → R.
Variable random_normal_b : nat → R.

(** [def __init__(self, units=32)] *)
Definition init (units : option nat) : t R :=
  Layer (default 32 units) None None.

(** [def build(self, input_shape)] *)
Definition build (self : t R) (input_shape : list (option nat)) : result (t R) :=
  rbind (of_option IndexError (last input_shape)) (λ last_dim,
  rbind (of_option ValueError last_dim) (λ input_dim,
  let w := add_weight2 random_normal_w input_dim (units self) in
  let b := add_weight1 random_normal_b (units self) in
  Ok (Layer (units self) (Some w) (Some b)))).

(** [def call(self, inputs)] *)
Definition call (self : t R) (inputs : tensor2 R) : result (tensor2 R) :=
  rbind (of_option (AttributeError "w") (w self)) (λ w,
  rbind (matmul radd rmul rzero inputs w) (λ product,
  rbind (of_option (AttributeError "b") (b self)) (λ b,
  add_broadcast radd product b))).

(** [def get_config(self)] *)
Definition get_config (self : t R) : gmap string nat :=
  {[ "units" := units self ]}.

(** The default [from_config] as the guide quotes it: the class
    called with the entries of the config as keyword arguments, for a
    config with at most the key [units]. *)
Definition from_config (config : gmap string nat) : t R :=
  init (config !! "units").
End methods.
End CustomDenseConfig.

(** The reference layer the custom ones imitate, [layers.Dense], as the
    framework documents its computation: the product with the kernel, the
    bias added when [use_bias] is set, then the activation if there is
    one. *)
Module Dense.
Import Tensor.

Record t (R : Type) : Type := Layer {
  kernel : tensor2 R;
  bias : list R;
  use_bias : bool;
  activation : option (R → R);
}.
Arguments Layer {R} _ _ _ _.
Arguments kernel {R} _.
Arguments bias {R} _.
Arguments use_bias {R} _.
Arguments activation {R} _.

Definition call {R} (radd rmul : R → R → R) (rzero : R)
    (self : t R) (inputs : tensor2 R) : result (tensor2 R) :=
  rbind (matmul radd rmul rzero inputs (kernel self)) (λ outputs,
  rbind (if use_bias self then add_broadcast radd outputs (bias self) else Ok outputs)
    (λ outputs,
  match activation self with
  | Some f => Ok (Tensor2 (dim0 outputs) (dim1 outputs) ((λ row : list R, f <$> row) <$> data outputs))
  | None => Ok outputs
  end)).
End Dense.

(** ** text_generation.py: the script, statement by statement *)

(** What a top-level statement does: one of the framework or helper calls
    the script is made of, or plain book-keeping. *)
Inductive api_call : Type :=
  | Import | Assign | Def | PrintOnly
  | GetFile | ReadText | BuildVocab | BuildTables | Vectorize
  | FromTensorSlices | Batch | Map | ShuffleBatch
  | BuildModel | ModelCall | Summary | SampleCategorical | LossCall
  | Compile | MakeCallback | Fit
  | LatestCheckpoint | LoadWeights | ModelBuild | GenerateText
  | MakeOptimizer | TrainLoop | SaveWeightsFinal.

#[global] Instance api_call_eq_dec : EqDecision api_call.
Proof. solve_decision. Defined.












(** ** text_generation.py: decoding and the training batches *)

(** [arr[item]]: an array indexed with an integer array of non-negative
    indices (an item of the dataset, [item.numpy()]); an index past the
    end raises [IndexError]. *)
Fixpoint array_take {A} (arr : list A) (item : list nat) : result (list A) :=
  match item with
  | [] => Ok []
  | i :: rest =>
      rbind (np_getitem arr i) (λ c,
      rbind (array_take arr rest) (λ cs, Ok (c :: cs)))
  end.

(** [''.join(idx2char[item.numpy()])] for an item of the dataset: the
    strings behind its indices, joined. *)
Definition decode (text : list char) (item : list nat) : result (list char) :=
  rbind (array_take (idx2char text) item) (λ strs, Ok (concat strs)).

(** [dataset = dataset.shuffle(BUFFER_SIZE).batch(BATCH_SIZE,
    drop_remainder=True)], for the reordering [shuffle] that the random
    shuffle buffer (of size [BUFFER_SIZE = 10000]) produces on a run. *)
Definition training_dataset (shuffle : list (list nat * list nat) → list (list nat * list nat))
    (ints : list nat) : list (list (list nat * list nat)) :=
  batch BATCH_SIZE true (shuffle (dataset ints)).

(** The events of a trace that are not part of a sampling iteration:
    resets and prints. *)
Definition resets_and_prints {logits} (tr : list (event logits)) : list (event logits) :=
  omap (λ ev, match ev with ResetStates | Print _ => Some ev | _ => None end) tr.

(** ** functional.py: the custom recurrent layers *)

(** [class CustomRNN(layers.Layer)], both versions: they differ in the
    classifier applied at the end and in a [print] of the feature shape.
    The input of shape [(batch, timesteps, input_dim)] is kept as the list
    of its time slices [inputs[:, t, :]]; the slices, the state of shape
    [(batch, units)], the two dense projections, the tensor sum and the
    classifier are the framework's. *)
Module CustomRNN.
Section methods.
Context {X V O : Type}.
Variable projection_1 : X → V.
Variable projection_2 : V → V.
Variable tensor_add : V → V → V.
(** [tf.zeros(shape=(inputs.shape[0], self.units))] *)
Variable zeros : V.
Variable classifier : list V → O.

(** The body of [for t in range(inputs.shape[1])] on the variables
    [(state, outputs)]. *)
Definition step (inputs : list X) (t : nat) (vars : V * list V) : result (V * list V) :=
  let '(state, outputs) := vars in
  rbind (of_option IndexError (inputs !! t)) (λ x,
  let h := projection_1 x in
  let y := tensor_add h (projection_2 state) in
  let state := y in
  Ok (state, outputs ++ [y])).

Fixpoint loop (n t : nat) (inputs : list X) (vars : V * list V) : result (V * list V) :=
  match n with
  | 0 => Ok vars
  | S n' => rbind (step inputs t vars) (loop n' (S t) inputs)
  end.

(** [tf.stack(outputs, axis=1)]: the shape is read off the first tensor
    of the list. *)
Definition stack (outputs : list V) : result (list V) :=
  match outputs with
  | [] => Raise IndexError
  | _ => Ok outputs
  end.

(** [def call(self, inputs)] *)
Definition call (inputs : list X) : result O :=
  let outputs := [] in
  let state := zeros in
  rbind (loop (length inputs) 0 inputs (state, outputs)) (λ vars,
  rbind (stack vars.2) (λ features,
  Ok (classifier features))).

(** The recurrence the layer is meant to compute, written by recursion
    on the time slices: each output is the projection of the slice plus
    the projection of the output before it. *)
Fixpoint spec_outputs (state : V) (xs : list X) : list V :=
  match xs with
  | [] => []
  | x :: xs' =>
      let y := tensor_add (projection_1 x) (projection_2 state) in
      y :: spec_outputs y xs'
  end.
End methods.
End CustomRNN.
(** * Properties *)

(** ** Slicing and training examples *)

Example split_hello :
  split_input_target [72; 101; 108; 108; 111]
  = ([72; 101; 108; 108], [101; 108; 108; 111]).
Proof. reflexivity. Qed.

Lemma py_slice_drop_last {A} (l : list A) :
  py_slice None (Some (-1)%Z) l = take (length l - 1) l.
Proof.
  unfold py_slice, clamp_index; simpl.
  destruct l as [|x l]; [done|].
  rewrite drop_0. f_equal. simpl length. lia.
Qed.

Lemma py_slice_drop_first {A} (l : list A) :
  py_slice (Some 1%Z) None l = drop 1 l.
Proof.
  unfold py_slice, clamp_index; simpl from_option.
  destruct l as [|x l]; [done|].
  replace (Z.to_nat (Z.min 1 (Z.of_nat (length (x :: l))))) with 1
    by (simpl length; lia).
  apply take_ge. rewrite length_drop. simpl length. lia.
Qed.

(** C1: for a non-empty chunk, [split_input_target] returns the chunk
    without its last element and the chunk without its first element; both
    have length [len(chunk) - 1], the input agrees with the chunk position
    by position, and [target_text[i] = chunk[i+1]] at every position. *)
Theorem split_input_target_shift {A} (chunk : list A) :
  chunk ≠ [] →
  let '(input_text, target_text) := split_input_target chunk in
  input_text = take (length chunk - 1) chunk ∧
  target_text = drop 1 chunk ∧
  length input_text = length chunk - 1 ∧
  length target_text = length chunk - 1 ∧
  (∀ i, i < length chunk - 1 → input_text !! i = chunk !! i) ∧
  (∀ i, target_text !! i = chunk !! (i + 1)) ∧
  (∀ i, i < length chunk - 1 → is_Some (target_text !! i)).
Proof.
  intros Hne. unfold split_input_target.
  rewrite py_slice_drop_last, py_slice_drop_first.
  repeat split.
  - rewrite length_take. lia.
  - rewrite length_drop. lia.
  - intros i Hi. by rewrite lookup_take_lt.
  - intros i. rewrite lookup_drop. f_equal. lia.
  - intros i Hi. apply lookup_lt_is_Some. rewrite length_drop. lia.
Qed.

Lemma split_input_target_shift_witness :
  [70; 105; 114] ≠ ([] : list nat) ∧
  split_input_target [70; 105; 114] = ([70; 105], [105; 114]).
Proof.
  split; [done|].
  pose proof (split_input_target_shift [70; 105; 114]) as H.
  destruct (split_input_target [70; 105; 114]) as [i t].
  destruct H as (-> & -> & _); done.
Defined.

Example vocab_hello : vocab [104; 101; 108; 108; 111]%N = [101; 104; 108; 111]%N.
Proof. vm_compute. reflexivity. Qed.

Example text_as_int_hello :
  text_as_int [104; 101; 108; 108; 111]%N = Ok [1; 0; 2; 2; 3].
Proof. vm_compute. reflexivity. Qed.


(** ** Vocabulary *)

Lemma vocab_Permutation (text : list char) :
  vocab text ≡ₚ elements (py_set text).
Proof. apply merge_sort_Permutation. Qed.

Lemma elem_of_vocab (text : list char) (c : char) :
  c ∈ vocab text ↔ c ∈ text.
Proof.
  rewrite vocab_Permutation. unfold py_set.
  rewrite elem_of_elements. apply elem_of_list_to_set.
Qed.

Lemma NoDup_vocab (text : list char) : NoDup (vocab text).
Proof.
  rewrite vocab_Permutation. apply NoDup_elements.
Qed.

Lemma Sorted_vocab (text : list char) : Sorted N.le (vocab text).
Proof. apply (Sorted_merge_sort N.le). Qed.

Lemma count_distinct_size (text : list char) :
  count_distinct text = size (py_set text).
Proof.
  unfold py_set. induction text as [|c text IH].
  - by rewrite list_to_set_nil, size_empty.
  - rewrite list_to_set_cons. cbn [count_distinct].
    case_bool_decide as Hc.
    + rewrite IH.
      assert (({[c]} ∪ list_to_set text : gset N) = list_to_set text) as ->; [|done].
      apply subseteq_union_1_L, singleton_subseteq_l. by apply elem_of_list_to_set.
    + rewrite size_union, size_singleton, IH; [done|].
      apply disjoint_singleton_l. by rewrite elem_of_list_to_set.
Qed.

(** C2: the vocabulary size is the number of distinct characters of the
    text: the vocabulary lists exactly the characters of the text, each
    once, and its length is the direct count of distinct characters. *)
Theorem vocab_size_distinct (text : list char) :
  vocab_size text = count_distinct text ∧
  NoDup (vocab text) ∧
  ∀ c, c ∈ vocab text ↔ c ∈ text.
Proof.
  split; [|split].
  - unfold vocab_size. rewrite count_distinct_size, vocab_Permutation. done.
  - apply NoDup_vocab.
  - apply elem_of_vocab.
Qed.

(** ** Lookup tables *)

Lemma dict_of_pairs_notin (d : gmap char nat) (k : nat) (l : list char) (c : char) :
  c ∉ l → dict_of_pairs d (enumerate_from k l) !! c = d !! c.
Proof.
  revert d k. induction l as [|u l IH]; intros d k Hc; [done|].
  apply not_elem_of_cons in Hc as [Hne Hc].
  unfold dict_of_pairs in *. simpl. rewrite IH by done.
  by rewrite lookup_insert_ne.
Qed.

Lemma dict_of_pairs_lookup (d : gmap char nat) (k i : nat) (l : list char) (c : char) :
  NoDup l → l !! i = Some c →
  dict_of_pairs d (enumerate_from k l) !! c = Some (k + i).
Proof.
  revert d k i. induction l as [|u l IH]; intros d k i Hnd Hi; [done|].
  apply NoDup_cons in Hnd as [Hu Hnd].
  destruct i as [|i]; simpl in Hi.
  - injection Hi as ->. unfold dict_of_pairs; simpl.
    fold (dict_of_pairs (<[c:=k]> d) (enumerate_from (S k) l)).
    rewrite dict_of_pairs_notin by done.
    rewrite lookup_insert_eq. f_equal. lia.
  - unfold dict_of_pairs; simpl.
    fold (dict_of_pairs (<[u:=k]> d) (enumerate_from (S k) l)).
    rewrite (IH _ _ i) by done. f_equal. lia.
Qed.

Lemma char2idx_of_Some (v : list char) (c : char) (i : nat) :
  NoDup v → (char2idx_of v !! c = Some i ↔ v !! i = Some c).
Proof.
  intros Hnd. unfold char2idx_of, enumerate. split.
  - intros Hc. destruct (decide (c ∈ v)) as [Hin|Hin].
    + apply list_elem_of_lookup in Hin as [j Hj].
      rewrite (dict_of_pairs_lookup _ _ j) in Hc by done.
      by simplify_eq/=.
    + by rewrite dict_of_pairs_notin in Hc.
  - intros Hi. by rewrite (dict_of_pairs_lookup _ _ i).
Qed.

Lemma char2idx_is_Some (text : list char) (c : char) :
  is_Some (char2idx text !! c) ↔ c ∈ text.
Proof.
  rewrite <- elem_of_vocab. unfold char2idx. split.
  - intros [i Hi]. apply char2idx_of_Some in Hi; [|apply NoDup_vocab].
    by eapply list_elem_of_lookup_2.
  - intros [i Hi]%list_elem_of_lookup. exists i.
    apply char2idx_of_Some; [apply NoDup_vocab|done].
Qed.

Lemma StronglySorted_lookup_le (l : list char) (i j : nat) (x y : char) :
  StronglySorted N.le l → l !! i = Some x → l !! j = Some y → i < j → (x ≤ y)%N.
Proof.
  intros Hs. revert i j. induction Hs as [|z l Hs IH Hz]; intros i j Hi Hj Hij; [done|].
  destruct j as [|j]; [lia|]. simpl in Hj. destruct i as [|i]; simpl in Hi.
  - simplify_eq. apply (proj1 (Forall_forall _ _) Hz). by eapply list_elem_of_lookup_2.
  - apply (IH i j); [done|done|lia].
Qed.




Lemma idx2char_lookup (text : list char) (i : nat) :
  idx2char text !! i = np_str <$> vocab text !! i.
Proof. unfold idx2char, idx2char_of. apply list_lookup_fmap. Qed.

Lemma np_str_not_null (c : char) : c ≠ 0%N → np_str c = [c].
Proof. intros Hc. unfold np_str. by rewrite bool_decide_false. Qed.

Lemma elem_of_vocab_not_null (text : list char) (i : nat) (c : char) :
  0%N ∉ text → vocab text !! i = Some c → c ≠ 0%N.
Proof.
  intros Hnull Hi ->. apply Hnull, elem_of_vocab. by eapply list_elem_of_lookup_2.
Qed.




(** ** Vectorisation *)

Lemma vectorize_total (d : gmap char nat) (s : list char) :
  (∀ c, c ∈ s → is_Some (d !! c)) →
  ∃ l, vectorize d s = Ok l ∧ length l = length s ∧
       ∀ i c, s !! i = Some c → ∃ k, d !! c = Some k ∧ l !! i = Some k.
Proof.
  induction s as [|c s IH]; intros Hs.
  - exists []. by repeat split.
  - destruct (Hs c) as [k Hk]; [by left|].
    destruct IH as (l & Hl & Hlen & Hl'); [intros; apply Hs; by right|].
    exists (k :: l). simpl. unfold dict_get. rewrite Hk. simpl. rewrite Hl. simpl.
    repeat split; [by rewrite Hlen|].
    intros [|i] c' Hi; simpl in *; [simplify_eq; eauto|eauto].
Qed.

Lemma vectorize_KeyError (d : gmap char nat) (pre post : list char) (c : char) :
  (∀ c', c' ∈ pre → is_Some (d !! c')) → d !! c = None →
  vectorize d (pre ++ c :: post) = Raise (KeyError c).
Proof.
  induction pre as [|u pre IH]; intros Hpre Hc; simpl.
  - unfold dict_get. by rewrite Hc.
  - destruct (Hpre u) as [k Hk]; [by left|].
    unfold dict_get at 1. rewrite Hk. simpl.
    rewrite IH; [done| |done]. intros; apply Hpre; by right.
Qed.

Lemma text_as_int_vectorized (text : list char) :
  ∃ ints, text_as_int text = Ok ints ∧ length ints = length text ∧
    ∀ i c, text !! i = Some c → ∃ k, char2idx text !! c = Some k ∧ ints !! i = Some k.
Proof. apply vectorize_total. intros c Hc. by apply char2idx_is_Some. Qed.

(** C5: vectorising the corpus never fails: every character of [text] is
    a key of [char2idx], so [text_as_int] is built without a [KeyError],
    has the length of the text, and [text_as_int[i] = char2idx[text[i]]]. *)
Theorem text_as_int_total (text : list char) :
  (∀ c, c ∈ text → is_Some (char2idx text !! c)) ∧
  ∃ ints, text_as_int text = Ok ints ∧ length ints = length text ∧
    ∀ i c, text !! i = Some c →
      ∃ k, char2idx text !! c = Some k ∧ ints !! i = Some k.
Proof.
  assert (H : ∀ c, c ∈ text → is_Some (char2idx text !! c)).
  { intros c Hc. by apply char2idx_is_Some. }
  split; [done|]. by apply vectorize_total.
Qed.

Lemma text_as_int_total_witness :
  text_as_int [98; 97; 98]%N = Ok [1; 0; 1] ∧
  is_Some (char2idx [98; 97; 98]%N !! 97%N).
Proof.
  destruct (text_as_int_total [98; 97; 98]%N) as [H _].
  split; [vm_compute; reflexivity|]. apply H. by right; left.
Defined.

(** ** Batching *)

Section batch.
Context {A : Type}.
Implicit Types (buf s : list A) (n : nat).

Lemma batch_go_length n buf s :
  length buf < n →
  length (batch_go n true buf s) = (length buf + length s) / n.
Proof.
  revert buf. induction s as [|x s IH]; intros buf Hbuf.
  - simpl. rewrite Nat.add_0_r, Nat.div_small by done. by destruct buf.
  - cbn [batch_go]. case_decide as Hfull.
    + rewrite length_app in Hfull. simpl in Hfull.
      cbn [length]. rewrite IH by (simpl; lia).
      simpl. replace (length buf + S (length s)) with (1 * n + length s) by lia.
      rewrite Nat.div_add_l by lia. done.
    + rewrite length_app in Hfull. simpl in Hfull.
      rewrite IH by (rewrite length_app; simpl; lia).
      rewrite length_app. simpl. f_equal. lia.
Qed.

Lemma batch_go_full n buf s :
  length buf < n →
  Forall (λ c, length c = n) (batch_go n true buf s).
Proof.
  revert buf. induction s as [|x s IH]; intros buf Hbuf.
  - simpl. by destruct buf.
  - cbn [batch_go]. case_decide as Hfull.
    + constructor; [done|]. apply IH. rewrite length_app in Hfull.
      simpl in *. lia.
    + apply IH. rewrite length_app in *. simpl in *. lia.
Qed.

Lemma batch_go_concat n buf s :
  length buf < n →
  concat (batch_go n true buf s)
  = take (n * ((length buf + length s) / n)) (buf ++ s).
Proof.
  revert buf. induction s as [|x s IH]; intros buf Hbuf.
  - simpl. rewrite Nat.add_0_r, Nat.div_small, Nat.mul_0_r by done.
    by destruct buf.
  - cbn [batch_go]. case_decide as Hfull.
    + pose proof Hfull as Hfull'. rewrite length_app in Hfull'. simpl in Hfull'.
      cbn [concat]. rewrite IH by (simpl; lia).
      simpl length. replace (length buf + S (length s)) with (1 * n + length s) by lia.
      rewrite Nat.div_add_l by lia.
      replace (buf ++ x :: s) with ((buf ++ [x]) ++ s) by by rewrite <- app_assoc.
      replace (n * (1 + length s / n)) with (length (buf ++ [x]) + n * (length s / n))
        by (rewrite length_app; simpl; lia).
      by rewrite take_app_add.
    + rewrite length_app in Hfull. simpl in Hfull.
      rewrite IH by (rewrite length_app; simpl; lia).
      rewrite length_app, <- app_assoc. simpl. do 3 f_equal. lia.
Qed.
End batch.

Example batch_keep_remainder : batch 2 false [1; 2; 3; 4; 5] = [[1; 2]; [3; 4]; [5]].
Proof. reflexivity. Qed.

Example batch_drop_remainder : batch 2 true [1; 2; 3; 4; 5] = [[1; 2]; [3; 4]].
Proof. reflexivity. Qed.

Lemma sequences_spec (ints : list nat) :
  length (sequences ints) = length ints / 101 ∧
  Forall (λ chunk, length chunk = 101) (sequences ints) ∧
  concat (sequences ints) = take (101 * (length ints / 101)) ints.
Proof.
  unfold sequences, batch, char_dataset. change (seq_length + 1) with 101.
  split; [|split].
  - by rewrite batch_go_length by (simpl; lia).
  - apply (batch_go_full 101 []). simpl; lia.
  - by rewrite batch_go_concat by (simpl; lia).
Qed.

(** C6: the dataset built from a text has exactly [len(text) // 101]
    examples, cut from the full chunks of 101 consecutive character indices
    (a trailing partial chunk is dropped); each example is
    [split_input_target] of its chunk, the chunk without its last and
    without its first element, so every example's input and target have
    length exactly [seq_length = 100]. *)
Theorem dataset_examples_length (text : list char) :
  ∃ ints examples,
    text_as_int text = Ok ints ∧
    dataset_of_text text = Ok examples ∧
    length (sequences ints) = length text / (seq_length + 1) ∧
    Forall (λ chunk, length chunk = seq_length + 1) (sequences ints) ∧
    concat (sequences ints) = take (101 * (length text / 101)) ints ∧
    length examples = length text / (seq_length + 1) ∧
    Forall (λ ex, length ex.1 = seq_length ∧ length ex.2 = seq_length) examples ∧
    examples = split_input_target <$> sequences ints ∧
    Forall2 (λ chunk ex,
               ex.1 = take (length chunk - 1) chunk ∧ ex.2 = drop 1 chunk ∧
               length ex.1 = length chunk - 1 ∧ length ex.2 = length chunk - 1 ∧
               ∀ i, ex.2 !! i = chunk !! (i + 1))
            (sequences ints) examples.
Proof.
  destruct (text_as_int_vectorized text) as (ints & Hints & Hlen & _).
  destruct (sequences_spec ints) as (Hn & Hfull & Hcat).
  exists ints, (dataset ints). unfold dataset_of_text. rewrite Hints, <- Hlen.
  change (seq_length + 1) with 101. change seq_length with 100.
  split; [done|]. split; [done|]. split; [done|]. split; [done|]. split; [done|].
  split; [unfold dataset; by rewrite length_fmap|]. split.
  { unfold dataset. apply Forall_fmap. eapply Forall_impl; [apply Hfull|].
    intros chunk Hchunk. unfold compose, split_input_target. cbn [fst snd].
    rewrite py_slice_drop_last, py_slice_drop_first, length_take, length_drop.
    simpl in Hchunk. lia. }
  split; [done|]. unfold dataset. apply Forall2_fmap_r, Forall_Forall2_diag.
  eapply Forall_impl; [apply Hfull|]. intros chunk Hchunk.
  unfold compose, split_input_target. cbn beta. cbn [fst snd].
  rewrite py_slice_drop_last, py_slice_drop_first, length_take, length_drop.
  simpl in Hchunk. split; [done|]. split; [done|]. split; [lia|]. split; [lia|].
  intros i. rewrite lookup_drop. f_equal. lia.
Qed.

(** ** Text generation *)

Lemma forward_inputs_app {logits} (tr1 tr2 : list (event logits)) :
  forward_inputs (tr1 ++ tr2) = forward_inputs tr1 ++ forward_inputs tr2.
Proof. apply omap_app. Qed.

Lemma sampled_ids_app {logits} (tr1 tr2 : list (event logits)) :
  sampled_ids (tr1 ++ tr2) = sampled_ids tr1 ++ sampled_ids tr2.
Proof. apply omap_app. Qed.

Lemma first_missing (P : char → Prop) `{∀ c, Decision (P c)} (s : list char) :
  ¬ Forall P s → ∃ pre c post, s = pre ++ c :: post ∧ Forall P pre ∧ ¬ P c.
Proof.
  induction s as [|c s IH]; intros Hs.
  - destruct Hs. constructor.
  - destruct (decide (P c)) as [Hc|Hc].
    + destruct IH as (pre & c' & post & -> & Hpre & Hc').
      { intros Hs'. apply Hs. by constructor. }
      exists (c :: pre), c', post. split; [done|]. split; [by constructor|done].
    + exists [], c, s. split; [done|]. split; [constructor|done].
Qed.

Lemma decoded_characters (text : list char) (ids : list nat) (strs : list (list char)) :
  0%N ∉ text →
  Forall2 (λ id s, idx2char text !! id = Some s) ids strs →
  Forall2 (λ id c, vocab text !! id = Some c) ids (concat strs) ∧
  length (concat strs) = length ids.
Proof.
  intros Hnull Hdec. induction Hdec as [|id s ids strs Hs _ [IH IHlen]]; [by split|].
  rewrite idx2char_lookup in Hs. destruct (vocab text !! id) as [c|] eqn:Hc; [|done].
  simpl in Hs. simplify_eq.
  rewrite (np_str_not_null c) by (by eapply elem_of_vocab_not_null).
  simpl. split; [by constructor|by rewrite IHlen].
Qed.

Section generate_text.
Context {logits scalar mstate rng : Type}.
Variable model_reset_states : mstate → mstate.
Variable model_call : mstate → list nat → result (mstate * list logits).
Variable tensor_div : logits → scalar → logits.
Variable one_point_zero : scalar.
Variable categorical : rng → list logits → rng * list nat.
Variable text : list char.

Let step := generate_step model_call tensor_div categorical (idx2char text).
Let generate := generate_text model_reset_states model_call tensor_div
                  one_point_zero categorical (char2idx text) (idx2char text).

Lemma spec_sampling_run_facts n st g input_eval evs ids st_end g_end :
  spec_sampling_run model_call tensor_div one_point_zero categorical
    n st g input_eval evs ids st_end g_end →
  length ids = n ∧ length evs = 2 * n ∧
  forward_inputs evs = take n (input_eval :: ((λ id, [id]) <$> ids)) ∧
  sampled_ids evs = ids ∧ resets_and_prints evs = [].
Proof.
  induction 1 as [|n st g input_eval st' predictions g' drawn id evs ids st_end g_end
                    Hcall Hdraw Hlast _ (IHlen & IHevs & IHfw & IHsm & IHrp)].
  - by repeat split.
  - split; [simpl; by rewrite IHlen|]. split; [simpl; rewrite IHevs; lia|].
    split; [|split].
    + change (forward_inputs (?a :: ?b :: evs)) with (input_eval :: forward_inputs evs).
      rewrite IHfw. done.
    + transitivity (match last drawn with
                    | Some y => y :: sampled_ids evs
                    | None => sampled_ids evs
                    end); [reflexivity|].
      by rewrite Hlast, IHsm.
    + exact IHrp.
Qed.

Hypothesis framework : framework_ok model_call categorical (vocab_size text).

Lemma generate_step_ok temperature i input_eval text_generated w :
  input_eval ≠ [] →
  ∃ st' predictions g' drawn id s,
    model_call (model_state w) input_eval = Ok (st', predictions) ∧
    categorical (rng_state w) ((λ p, tensor_div p temperature) <$> predictions)
    = (g', drawn) ∧
    last drawn = Some id ∧ id < vocab_size text ∧ idx2char text !! id = Some s ∧
    step temperature i (input_eval, text_generated) w
    = (Ok ([id], text_generated ++ [s]),
       World st' g'
         (trace w ++ [Forward input_eval (Ok predictions);
                      Categorical ((λ p, tensor_div p temperature) <$> predictions) drawn])).
Proof.
  destruct framework as (Hcall & Hrows & Hrange). intros Hne.
  destruct (Hcall (model_state w) input_eval Hne) as (st' & predictions & Hfw & Hlen).
  set (scaled := (λ p, tensor_div p temperature) <$> predictions).
  pose proof (Hrows (rng_state w) scaled) as Hlen'.
  pose proof (Hrange (rng_state w) scaled) as Hlt.
  destruct (categorical (rng_state w) scaled) as [g' drawn] eqn:Hdraw.
  simpl in Hlen', Hlt.
  assert (Hscaled : length scaled = length input_eval).
  { unfold scaled. by rewrite length_fmap. }
  destruct (last drawn) as [id|] eqn:Hlast.
  2:{ apply last_None in Hlast. subst drawn. destruct input_eval; [done|].
      simpl in *. lia. }
  assert (Hid : id < vocab_size text).
  { apply last_Some_elem_of in Hlast.
    by apply (proj1 (Forall_forall _ _) Hlt). }
  destruct (lookup_lt_is_Some_2 (idx2char text) id) as [s Hs].
  { unfold idx2char, idx2char_of. by rewrite length_fmap. }
  exists st', predictions, g', drawn, id, s.
  split; [done|]. split; [done|]. split; [done|]. split; [done|]. split; [done|].
  unfold step, generate_step, bind at 1, call_model. rewrite Hfw.
  fold scaled. unfold bind at 1, random_categorical.
  cbn [rng_state log model_state trace]. rewrite Hdraw.
  unfold bind at 1, lift at 1. rewrite Hlast. cbn [of_option].
  unfold bind, lift, np_getitem, ret. rewrite Hs. cbn [of_option].
  unfold log. cbn [rng_state model_state trace]. by rewrite <- app_assoc.
Qed.

Lemma for_range_generate_ok n i input_eval text_generated w :
  input_eval ≠ [] →
  ∃ ids strs evs input_eval' w',
    for_range n i (step one_point_zero) (input_eval, text_generated) w
    = (Ok (input_eval', text_generated ++ strs), w') ∧
    trace w' = trace w ++ evs ∧
    spec_sampling_run model_call tensor_div one_point_zero categorical
      n (model_state w) (rng_state w) input_eval evs ids (model_state w') (rng_state w') ∧
    Forall (λ id, id < vocab_size text) ids ∧
    Forall2 (λ id s, idx2char text !! id = Some s) ids strs.
Proof.
  revert i input_eval text_generated w.
  induction n as [|n IH]; intros i input_eval text_generated w Hne.
  - exists [], [], [], input_eval, w. simpl. unfold ret.
    rewrite !app_nil_r. repeat split; constructor.
  - destruct (generate_step_ok one_point_zero i input_eval text_generated w Hne)
      as (st' & predictions & g' & drawn & id & s & Hcall & Hdraw & Hlast & Hid & Hs & Hstep).
    destruct (IH (S i) [id] (text_generated ++ [s])
                (World st' g'
                   (trace w ++ [Forward input_eval (Ok predictions);
                                Categorical ((λ p, tensor_div p one_point_zero) <$> predictions)
                                  drawn])))
      as (ids & strs & evs & input_eval' & w' & Hloop & Htr & Hrun & Hids & Hdec); [done|].
    exists (id :: ids), (s :: strs),
           (Forward input_eval (Ok predictions)
            :: Categorical ((λ p, tensor_div p one_point_zero) <$> predictions) drawn :: evs),
           input_eval', w'.
    cbn [for_range]. unfold bind at 1. rewrite Hstep, Hloop.
    rewrite <- app_assoc. split; [done|].
    split; [rewrite Htr; cbn [trace]; by rewrite <- app_assoc|].
    split; [by econstructor|]. split; by constructor.
Qed.

(** C4: with a model that returns one row of logits per time step and a
    sampler that draws one class below [vocab_size] per row, for a
    non-empty [start_string] over the vocabulary [generate_text] resets
    the model and runs exactly 1000 iterations. Each iteration runs the
    forward pass on the current input (first the vectorised start string,
    then the index sampled just before), divides the resulting logits by
    the temperature, lets the sampler draw from exactly those logits and
    takes the class of the last row as the next input. It returns
    [start_string] followed by the strings [idx2char] gives for the 1000
    sampled indices; when the corpus has no [U+0000] these are 1000
    characters of the vocabulary and the result has length
    [len(start_string) + 1000]. *)
Theorem generate_text_sampling_loop (start_string : list char) (w : world) :
  start_string ≠ [] →
  Forall (λ c, c ∈ vocab text) start_string →
  ∃ start_ids ids strs evs w',
    vectorize (char2idx text) start_string = Ok start_ids ∧
    generate start_string w = (Ok (start_string ++ concat strs), w') ∧
    trace w' = trace w ++ ResetStates :: evs ∧
    spec_sampling_run model_call tensor_div one_point_zero categorical 1000
      (model_reset_states (model_state w)) (rng_state w) start_ids evs ids
      (model_state w') (rng_state w') ∧
    length ids = 1000 ∧
    Forall (λ id, id < vocab_size text) ids ∧
    Forall2 (λ id s, idx2char text !! id = Some s) ids strs ∧
    start_string `prefix_of` start_string ++ concat strs ∧
    forward_inputs (trace w')
    = forward_inputs (trace w) ++ start_ids :: ((λ id, [id]) <$> take 999 ids) ∧
    length (forward_inputs (trace w')) = length (forward_inputs (trace w)) + 1000 ∧
    sampled_ids (trace w') = sampled_ids (trace w) ++ ids ∧
    (0%N ∉ text →
     Forall2 (λ id c, vocab text !! id = Some c) ids (concat strs) ∧
     Forall (λ c, c ∈ vocab text) (concat strs) ∧
     length (concat strs) = 1000 ∧
     length (start_string ++ concat strs) = length start_string + 1000).
Proof.
  intros Hne Hvocab.
  destruct (vectorize_total (char2idx text) start_string)
    as (start_ids & Hvec & Hlen & _).
  { intros c Hc. apply char2idx_is_Some, elem_of_vocab.
    by apply (proj1 (Forall_forall _ _) Hvocab). }
  assert (Hne' : start_ids ≠ []).
  { intros ->. destruct start_string; [done|]. simpl in Hlen. lia. }
  set (w0 := log ResetStates
               (World (model_reset_states (model_state w)) (rng_state w) (trace w))).
  destruct (for_range_generate_ok 1000 0 start_ids [] w0 Hne')
    as (ids & strs & evs & input_eval' & w' & Hloop & Htr & Hrun & Hids & Hdec).
  cbn [w0 log model_state rng_state trace] in Htr, Hrun.
  destruct (spec_sampling_run_facts _ _ _ _ _ _ _ _ Hrun)
    as (Hn & _ & Hfw & Hsm & _).
  exists start_ids, ids, strs, evs, w'.
  assert (Htrace : trace w' = trace w ++ ResetStates :: evs).
  { rewrite Htr. by rewrite <- app_assoc. }
  assert (Hfw' : forward_inputs (trace w')
                 = forward_inputs (trace w) ++ start_ids :: ((λ id, [id]) <$> take 999 ids)).
  { rewrite Htrace, forward_inputs_app.
    change (forward_inputs (ResetStates :: evs)) with (forward_inputs evs).
    rewrite Hfw. f_equal. change 1000 with (S 999). cbn [take]. f_equal.
    by rewrite fmap_take. }
  split; [done|]. split.
  { unfold generate, generate_text, bind at 1, lift. rewrite Hvec.
    unfold bind at 1, reset_states. fold w0.
    unfold bind at 1. fold step. rewrite Hloop. reflexivity. }
  split; [done|]. split; [done|]. split; [done|]. split; [done|]. split; [done|].
  split; [by apply prefix_app_r|]. split; [done|]. split.
  { rewrite Hfw', length_app. cbn [length]. rewrite length_fmap, length_take. lia. }
  split.
  { rewrite Htrace, sampled_ids_app.
    change (sampled_ids (ResetStates :: evs)) with (sampled_ids evs). by rewrite Hsm. }
  intros Hnull. destruct (decoded_characters text ids strs Hnull Hdec) as [Hchars Hclen].
  split; [done|]. split.
  { apply Forall_forall. intros c Hc.
    apply list_elem_of_lookup in Hc as [k Hk].
    destruct (Forall2_lookup_r _ _ _ _ _ Hchars Hk) as (id & _ & Hid).
    by eapply list_elem_of_lookup_2. }
  split; [by rewrite Hclen|]. rewrite length_app, Hclen. lia.
Qed.
End generate_text.

Lemma toy_framework_ok (classes : nat) :
  0 < classes → framework_ok toy_call (toy_categorical classes) classes.
Proof.
  intros Hpos. split; [|split].
  - intros st xs Hne. exists (S st), xs. by destruct xs.
  - intros g ps. simpl. by rewrite length_fmap.
  - intros g ps. simpl. apply Forall_fmap, Forall_true. intros p. simpl.
    apply Nat.mod_upper_bound. intros ->. by apply Nat.lt_irrefl in Hpos.
Qed.

Lemma generate_text_sampling_loop_witness :
  [97]%N ≠ [] ∧ Forall (λ c, c ∈ vocab [98; 97]%N) [97]%N ∧
  ∃ generated,
    (toy_generate_text [98; 97]%N [97]%N).1 = Ok ([97]%N ++ generated) ∧
    length ([97]%N ++ generated) = 1 + 1000.
Proof.
  assert (Hne : [97]%N ≠ []) by done.
  assert (Hvocab : Forall (λ c, c ∈ vocab [98; 97]%N) [97]%N).
  { constructor; [|constructor]. apply elem_of_vocab. by right; left. }
  assert (Hfw : framework_ok toy_call (toy_categorical (vocab_size [98; 97]%N))
                  (vocab_size [98; 97]%N)).
  { apply toy_framework_ok. vm_compute. lia. }
  assert (Hnull : 0%N ∉ [98; 97]%N).
  { intros H. apply elem_of_cons in H as [H|H]; [done|].
    apply elem_of_cons in H as [H|H]; [done|]. by apply elem_of_nil in H. }
  split; [done|]. split; [done|].
  destruct (generate_text_sampling_loop toy_reset toy_call toy_div ()
              (toy_categorical (vocab_size [98; 97]%N)) [98; 97]%N Hfw
              [97]%N (World 7 0 []) Hne Hvocab)
    as (start_ids & ids & strs & evs & w' & _ & Hrun & _ & _ & _ & _ & _ & _ & _ & _ & _ & H).
  destruct (H Hnull) as (_ & _ & _ & Hlen).
  exists (concat strs). unfold toy_generate_text. rewrite Hrun. clear Hrun.
  split; [reflexivity|exact Hlen].
Defined.

(** C4 read for every start string over the vocabulary of every corpus
    fails twice. The empty start string is over the vocabulary, but
    [generate_text] does not return on it. And on a corpus with [U+0000] a
    sampled index 0 adds no character, so the result is shorter than
    [len(start_string) + 1000]. *)
Lemma generate_text_empty_start_counterexample :
  framework_ok toy_call (toy_categorical (vocab_size [98; 97]%N)) (vocab_size [98; 97]%N) ∧
  Forall (λ c, c ∈ vocab [98; 97]%N) [] ∧
  (∀ out, (toy_generate_text [98; 97]%N []).1 ≠ Ok out) ∧
  framework_ok toy_call (toy_categorical (vocab_size [97; 0]%N)) (vocab_size [97; 0]%N) ∧
  Forall (λ c, c ∈ vocab [97; 0]%N) [97]%N ∧
  ∃ out, (toy_generate_text [97; 0]%N [97]%N).1 = Ok out ∧
         length out < length [97]%N + 1000.
Proof.
  split; [apply toy_framework_ok; vm_compute; lia|].
  split; [constructor|]. split.
  { intros out. vm_compute. discriminate. }
  split; [apply toy_framework_ok; vm_compute; lia|]. split.
  { constructor; [|constructor]. apply elem_of_vocab. by left. }
  destruct (toy_generate_text [97; 0]%N [97]%N).1 as [out|e] eqn:Hrun;
    [|by vm_compute in Hrun].
  exists out. split; [done|].
  assert (Hlen : (λ r, match r with Ok o => length o | Raise _ => 0 end)
                   (toy_generate_text [97; 0]%N [97]%N).1 = length out) by (by rewrite Hrun).
  rewrite <- Hlen. clear Hrun Hlen. vm_compute. lia.
Qed.

(** ** Uncaught lookup errors *)

Section uncaught.
Context {logits scalar mstate rng : Type}.
Variable model_reset_states : mstate → mstate.
Variable model_call : mstate → list nat → result (mstate * list logits).
Variable tensor_div : logits → scalar → logits.
Variable one_point_zero : scalar.
Variable categorical : rng → list logits → rng * list nat.
Variable text : list char.

(** C8: when [start_string] has a character outside the vocabulary,
    [generate_text] raises [KeyError] for the first such character from
    the [char2idx] lookup, before any call into the model, and the
    top-level [print(generate_text(...))] passes the exception on. *)
Theorem generate_text_KeyError (start_string : list char) (w : world) :
  ¬ Forall (λ c, c ∈ vocab text) start_string →
  ∃ pre c post,
    start_string = pre ++ c :: post ∧
    Forall (λ c', c' ∈ vocab text) pre ∧ (c ∉ vocab text) ∧
    char2idx text !! c = None ∧
    generate_text model_reset_states model_call tensor_div one_point_zero
      categorical (char2idx text) (idx2char text) start_string w
    = (Raise (KeyError c), w) ∧
    print_generate_text model_reset_states model_call tensor_div one_point_zero
      categorical (char2idx text) (idx2char text) start_string w
    = (Raise (KeyError c), w).
Proof.
  intros (pre & c & post & -> & Hpre & Hc)%first_missing; [|apply _].
  exists pre, c, post.
  assert (Hnone : char2idx text !! c = None).
  { apply eq_None_not_Some. by rewrite char2idx_is_Some, <- elem_of_vocab. }
  assert (Hvec : vectorize (char2idx text) (pre ++ c :: post) = Raise (KeyError c)).
  { apply vectorize_KeyError; [|done]. intros c' Hc'.
    apply char2idx_is_Some, elem_of_vocab.
    by apply (proj1 (Forall_forall _ _) Hpre). }
  assert (Hgen : generate_text model_reset_states model_call tensor_div one_point_zero
                   categorical (char2idx text) (idx2char text) (pre ++ c :: post) w
                 = (Raise (KeyError c), w)).
  { unfold generate_text, bind at 1, lift. by rewrite Hvec. }
  repeat split; try done.
  unfold print_generate_text, bind. by rewrite Hgen.
Qed.
End uncaught.

Lemma generate_text_KeyError_witness :
  ¬ Forall (λ c, c ∈ vocab [98; 97]%N) [97; 122; 98]%N ∧
  toy_generate_text [98; 97]%N [97; 122; 98]%N = (Raise (KeyError 122%N), World 7 0 []).
Proof.
  assert (Hnot : ¬ Forall (λ c, c ∈ vocab [98; 97]%N) [97; 122; 98]%N).
  { intros H. apply Forall_cons in H as [_ H]. apply Forall_cons in H as [H _].
    apply elem_of_vocab in H. apply elem_of_cons in H as [H|H]; [done|].
    apply elem_of_cons in H as [H|H]; [done|]. by apply elem_of_nil in H. }
  split; [done|].
  destruct (generate_text_KeyError toy_reset toy_call toy_div ()
              (toy_categorical (vocab_size [98; 97]%N)) [98; 97]%N
              [97; 122; 98]%N (World 7 0 []) Hnot)
    as (pre & c & post & Hsplit & Hpre & Hc & _ & Hrun & _).
  unfold toy_generate_text. rewrite Hrun. clear Hrun. do 3 f_equal.
  destruct pre as [|p pre]; simplify_eq/=.
  { exfalso. apply Hc, elem_of_vocab. by right; left. }
  destruct pre as [|p' pre]; simplify_eq/=; [done|].
  destruct pre as [|p'' pre]; simplify_eq/=.
  - exfalso. apply Hc, elem_of_vocab. by left.
  - by destruct pre.
Defined.

(** ** Checkpoints *)

Lemma str_app_nil_r (s : string) : s +:+ "" = s.
Proof.
  induction s as [|c s IH]; [done|].
  change (String c s +:+ "") with (String c (s +:+ "")). by rewrite IH.
Qed.

Lemma checkpoint_prefix_eq : checkpoint_prefix = "./training_checkpoints/ckpt_{epoch}".
Proof. vm_compute. reflexivity. Qed.

Lemma format_checkpoint_prefix_eq (n : nat) :
  format_checkpoint_prefix n = Ok (spec_checkpoint_path n).
Proof.
  unfold format_checkpoint_prefix, spec_checkpoint_path.
  rewrite checkpoint_prefix_eq. generalize (py_str n). intros v.
  transitivity (Ok (A := string) ("./training_checkpoints/ckpt_" +:+ (v +:+ ""))).
  - vm_compute. reflexivity.
  - by rewrite str_app_nil_r.
Qed.

Example format_checkpoint_prefix_9 :
  format_checkpoint_prefix 9 = Ok "./training_checkpoints/ckpt_9"%string.
Proof. vm_compute. reflexivity. Qed.

Lemma saves_app (tr1 tr2 : list train_event) : saves (tr1 ++ tr2) = saves tr1 ++ saves tr2.
Proof. apply omap_app. Qed.

Lemma saves_spec_batch_events (nbatches epoch : nat) :
  saves (spec_batch_events nbatches epoch) = [].
Proof.
  unfold spec_batch_events. induction (seq 0 nbatches) as [|b bs IH]; [done|].
  cbn [flat_map]. rewrite saves_app, IH. by destruct (b `mod` 100 =? 0).
Qed.

Lemma saves_spec_epoch_events (nbatches epoch : nat) :
  saves (spec_epoch_events nbatches epoch)
  = if (epoch + 1) `mod` 5 =? 0 then [(spec_checkpoint_path epoch, true)] else [].
Proof.
  unfold spec_epoch_events. change (TrainReset :: ?l) with ([TrainReset] ++ l).
  rewrite !saves_app, saves_spec_batch_events.
  by destruct ((epoch + 1) `mod` 5 =? 0).
Qed.

Lemma saves_spec_fit_epoch_events (nbatches epoch : nat) :
  saves (spec_fit_epoch_events nbatches epoch) = [(spec_checkpoint_path (epoch + 1), true)].
Proof.
  unfold spec_fit_epoch_events. rewrite saves_app.
  replace (saves (TrainStep epoch <$> seq 0 nbatches)) with (@nil (string * bool)); [done|].
  induction (seq 0 nbatches) as [|b bs IH]; [done|]. by rewrite fmap_cons.
Qed.

Lemma train_batches_from (n i epoch : nat) (loss_bound : bool) (tr : list train_event) :
  for_range n i (λ batch_n (_ : bool),
    bind (emit (TrainStep epoch batch_n)) (λ _,
    bind (if batch_n `mod` 100 =? 0 then emit TrainPrint else ret ()) (λ _,
    ret true))) loss_bound tr
  = (Ok (if n is 0 then loss_bound else true),
     tr ++ flat_map (λ batch_n,
             TrainStep epoch batch_n :: if batch_n `mod` 100 =? 0 then [TrainPrint] else [])
             (seq i n)).
Proof.
  revert loss_bound tr i. induction n as [|n IH]; intros loss_bound tr i.
  - simpl. unfold ret. by rewrite app_nil_r.
  - cbn [for_range seq flat_map]. unfold bind at 1. unfold bind at 1, emit at 1.
    destruct (i `mod` 100 =? 0).
    + unfold bind at 1, emit at 1, ret at 1. rewrite IH.
      rewrite <- !app_assoc. by destruct n.
    + unfold bind at 1, ret at 1, ret at 1. rewrite IH.
      rewrite <- !app_assoc. by destruct n.
Qed.

Lemma train_batches_trace (nbatches epoch : nat) (loss_bound : bool) (tr : list train_event) :
  train_batches nbatches epoch loss_bound tr
  = (Ok (if nbatches is 0 then loss_bound else true),
     tr ++ spec_batch_events nbatches epoch).
Proof. apply train_batches_from. Qed.

Lemma train_epoch_trace (nbatches epoch : nat) (vars : option nat * bool)
    (tr : list train_event) :
  0 < nbatches →
  train_epoch nbatches epoch vars tr
  = (Ok (Some epoch, true), tr ++ spec_epoch_events nbatches epoch).
Proof.
  intros Hpos. unfold train_epoch, spec_epoch_events.
  unfold bind at 1, emit at 1. unfold bind at 1. rewrite train_batches_trace.
  destruct nbatches as [|n]; [lia|].
  unfold bind at 1. rewrite format_checkpoint_prefix_eq.
  destruct ((epoch + 1) `mod` 5 =? 0).
  - unfold bind at 1, lift at 1, save_weights, emit, bind, ret.
    by rewrite <- !app_assoc.
  - unfold ret at 1, emit, bind, ret. by rewrite <- !app_assoc.
Qed.

Lemma train_epochs_trace (nbatches n i : nat) (vars : option nat * bool)
    (tr : list train_event) :
  0 < nbatches →
  for_range n i (train_epoch nbatches) vars tr
  = (Ok (if n is 0 then vars else (Some (i + n - 1), true)),
     tr ++ flat_map (spec_epoch_events nbatches) (seq i n)).
Proof.
  intros Hpos. revert i vars tr. induction n as [|n IH]; intros i vars tr.
  - simpl. unfold ret. by rewrite app_nil_r.
  - cbn [for_range seq flat_map]. unfold bind. rewrite train_epoch_trace by done.
    rewrite IH, <- app_assoc. destruct n; [|do 4 f_equal; lia].
    do 4 f_equal. lia.
Qed.

Lemma custom_training_trace (nbatches epochs : nat) (tr : list train_event) :
  0 < nbatches → 0 < epochs →
  custom_training nbatches epochs tr
  = (Ok (), tr ++ flat_map (spec_epoch_events nbatches) (seq 0 epochs)
               ++ [SaveWeights (spec_checkpoint_path (epochs - 1))]).
Proof.
  intros Hpos Hepochs. unfold custom_training, bind at 1.
  rewrite train_epochs_trace by done. destruct epochs as [|n]; [lia|].
  cbn [fst snd]. unfold bind at 1, lift at 1, of_option.
  unfold bind, lift. rewrite format_checkpoint_prefix_eq.
  unfold save_weights, emit. rewrite <- app_assoc. repeat f_equal; lia.
Qed.

Lemma model_fit_steps (n i epoch : nat) (tr : list train_event) :
  for_range n i (λ batch_n (_ : unit), emit (TrainStep epoch batch_n)) () tr
  = (Ok (), tr ++ (TrainStep epoch <$> seq i n)).
Proof.
  revert i tr. induction n as [|n IH]; intros i tr.
  - simpl. unfold ret. by rewrite app_nil_r.
  - cbn [for_range seq]. unfold bind, emit at 1. rewrite IH, <- app_assoc. done.
Qed.

Lemma model_fit_trace (nbatches n i : nat) (tr : list train_event) :
  for_range n i (λ epoch (_ : unit),
    bind (for_range nbatches 0 (λ batch_n (_ : unit), emit (TrainStep epoch batch_n)) ())
      (λ _, on_epoch_end checkpoint_callback epoch)) () tr
  = (Ok (), tr ++ flat_map (spec_fit_epoch_events nbatches) (seq i n)).
Proof.
  revert i tr. induction n as [|n IH]; intros i tr.
  - simpl. unfold ret. by rewrite app_nil_r.
  - cbn [for_range seq flat_map]. unfold bind at 1, bind at 1.
    rewrite model_fit_steps. unfold on_epoch_end, bind at 1, lift.
    change (str_format (filepath checkpoint_callback) {["epoch" := py_str (i + 1)]})
      with (format_checkpoint_prefix (i + 1)).
    rewrite format_checkpoint_prefix_eq. cbn [save_weights_only checkpoint_callback].
    unfold emit at 1. rewrite IH. unfold spec_fit_epoch_events at 2.
    by rewrite <- !app_assoc.
Qed.

Lemma saves_flat_map {A} (f : A → list train_event) (l : list A) :
  saves (flat_map f l) = flat_map (λ x, saves (f x)) l.
Proof.
  induction l as [|x l IH]; [done|]. cbn [flat_map]. by rewrite saves_app, IH.
Qed.

Lemma saves_custom_epochs (nbatches : nat) (l : list nat) :
  saves (flat_map (spec_epoch_events nbatches) l)
  = (λ epoch, (spec_checkpoint_path epoch, true))
    <$> filter (λ epoch, (epoch + 1) `mod` 5 = 0) l.
Proof.
  rewrite saves_flat_map. induction l as [|e l IH]; [done|].
  cbn [flat_map]. rewrite saves_spec_epoch_events, IH, filter_cons.
  destruct (Nat.eqb_spec ((e + 1) `mod` 5) 0) as [Heq|Hne].
  - by rewrite decide_True by done.
  - by rewrite decide_False by done.
Qed.

Lemma saves_fit_epochs (nbatches : nat) (l : list nat) :
  saves (flat_map (spec_fit_epoch_events nbatches) l)
  = (λ epoch, (spec_checkpoint_path (epoch + 1), true)) <$> l.
Proof.
  rewrite saves_flat_map. induction l as [|e l IH]; [done|].
  cbn [flat_map]. by rewrite saves_spec_fit_epoch_events, IH.
Qed.

(** C7: training writes checkpoints only. Under [fit] the callback saves
    after every epoch, in the custom loop over [EPOCHS = 10] epochs a save
    follows exactly the epochs with [(epoch + 1) % 5 == 0] and one more
    follows the loop; every save is weights-only and goes to
    [./training_checkpoints/ckpt_<number>]. *)
Theorem checkpoints_written (nbatches : nat) (tr : list train_event) :
  0 < nbatches →
  ∃ tr_fit tr_loop,
    fit_script nbatches tr = (Ok (), tr ++ tr_fit) ∧
    custom_training_script nbatches tr = (Ok (), tr ++ tr_loop) ∧
    tr_fit = flat_map (spec_fit_epoch_events nbatches) (seq 0 10) ∧
    tr_loop = flat_map (spec_epoch_events nbatches) (seq 0 10)
              ++ [SaveWeights (spec_checkpoint_path 9)] ∧
    saves tr_loop
    = ((λ epoch, (spec_checkpoint_path epoch, true))
         <$> filter (λ epoch, (epoch + 1) `mod` 5 = 0) (seq 0 10))
      ++ [(spec_checkpoint_path 9, true)] ∧
    saves tr_loop = [("./training_checkpoints/ckpt_4"%string, true);
                     ("./training_checkpoints/ckpt_9"%string, true);
                     ("./training_checkpoints/ckpt_9"%string, true)] ∧
    saves tr_fit = (λ n, (spec_checkpoint_path n, true)) <$> seq 1 10 ∧
    ∀ path weights_only, (path, weights_only) ∈ saves tr_fit ++ saves tr_loop →
      weights_only = true ∧
      ∃ n, path = checkpoint_dir +:+ "/" +:+ "ckpt_" +:+ py_str n.
Proof.
  intros Hpos.
  exists (flat_map (spec_fit_epoch_events nbatches) (seq 0 10)),
         (flat_map (spec_epoch_events nbatches) (seq 0 10)
          ++ [SaveWeights (spec_checkpoint_path 9)]).
  assert (Hloop : saves (flat_map (spec_epoch_events nbatches) (seq 0 10)
                         ++ [SaveWeights (spec_checkpoint_path 9)])
                  = ((λ epoch, (spec_checkpoint_path epoch, true))
                       <$> filter (λ epoch, (epoch + 1) `mod` 5 = 0) (seq 0 10))
                    ++ [(spec_checkpoint_path 9, true)]).
  { by rewrite saves_app, saves_custom_epochs. }
  assert (Hfit : saves (flat_map (spec_fit_epoch_events nbatches) (seq 0 10))
                 = (λ n, (spec_checkpoint_path n, true)) <$> seq 1 10).
  { rewrite saves_fit_epochs. rewrite <- (fmap_S_seq 0 10), <- list_fmap_compose.
    apply list_fmap_ext. intros _ e _. simpl. do 2 f_equal. lia. }
  split; [apply model_fit_trace|].
  split; [apply (custom_training_trace nbatches 10); [done|lia]|].
  split; [done|]. split; [done|]. split; [done|].
  split; [rewrite Hloop; vm_compute; reflexivity|]. split; [done|].
  intros path weights_only. rewrite Hfit, Hloop, !elem_of_app, !list_elem_of_fmap.
  rewrite list_elem_of_singleton.
  assert (Hpath : ∀ n, spec_checkpoint_path n
                       = checkpoint_dir +:+ "/" +:+ "ckpt_" +:+ py_str n) by done.
  intros [(n & ? & _)|[(n & ? & _)|?]]; simplify_eq; eauto.
Qed.

Lemma checkpoints_written_witness :
  0 < 2 ∧
  (custom_training_script 2 []).1 = Ok () ∧
  saves (custom_training_script 2 []).2
  = [("./training_checkpoints/ckpt_4"%string, true);
     ("./training_checkpoints/ckpt_9"%string, true);
     ("./training_checkpoints/ckpt_9"%string, true)].
Proof.
  assert (Hpos : 0 < 2) by lia. split; [done|].
  destruct (checkpoints_written 2 [] Hpos)
    as (tr_fit & tr_loop & _ & Hrun & _ & _ & _ & Hsaves & _).
  rewrite Hrun. clear Hrun. split; [reflexivity|]. exact Hsaves.
Defined.

(** Without a batch the name [loss] is never rebound and formatting it
    as a number fails at the end of the first epoch. *)
Example custom_training_empty_dataset :
  (custom_training_script 0 []).1 = Raise TypeError.
Proof. vm_compute. reflexivity. Qed.

(** ** The custom dense layers *)

Section tensor_facts.
Import Tensor.
Context {R : Type} (radd rmul : R → R → R) (rzero : R).

Let step := λ (acc : list R) (p : R * list R), zip_with radd acc (rmul p.1 <$> p.2).

Lemma foldl_step_length (cols : nat) (ps : list (R * list R)) (acc : list R) :
  length acc = cols → Forall (λ p, length p.2 = cols) ps →
  length (foldl step acc ps) = cols.
Proof.
  revert acc. induction ps as [|p ps IH]; intros acc Hacc Hps; [done|].
  apply Forall_cons in Hps as [Hp Hps]. simpl. apply IH; [|done].
  unfold step. rewrite length_zip_with, length_fmap. lia.
Qed.

Lemma foldl_step_lookup (j : nat) (xs : list R) (ws : list (list R))
    (acc : list R) (a0 : R) :
  acc !! j = Some a0 → Forall (λ row, j < length row) ws →
  foldl step acc (zip xs ws) !! j
  = Some (foldl radd a0 (zip_with rmul xs (column rzero j ws))).
Proof.
  revert ws acc a0. induction xs as [|x xs IH]; intros ws acc a0 Hacc Hws; [done|].
  destruct ws as [|wrow ws]; [done|].
  apply Forall_cons in Hws as [Hrow Hws].
  destruct (lookup_lt_is_Some_2 wrow j Hrow) as [wj Hwj].
  cbn [zip zip_with foldl column fmap list_fmap]. apply IH; [|done].
  unfold step. cbn [fst snd]. rewrite lookup_zip_with, Hacc. cbn.
  rewrite list_lookup_fmap, Hwj. cbn. do 3 f_equal.
  by rewrite nth_lookup, Hwj.
Qed.

Lemma row_matmul_spec (xrow : list R) (w : tensor2 R) :
  well_shaped w →
  length (row_matmul radd rmul rzero (dim1 w) xrow (data w)) = dim1 w ∧
  ∀ j, j < dim1 w →
    row_matmul radd rmul rzero (dim1 w) xrow (data w) !! j
    = Some (dot radd rmul rzero xrow (column rzero j (data w))).
Proof.
  intros [_ Hrows]. unfold row_matmul. fold step. split.
  - apply foldl_step_length; [apply length_replicate|].
    apply Forall_forall. intros [x row] Hin. apply elem_of_zip_r in Hin.
    by apply (proj1 (Forall_forall _ _) Hrows).
  - intros j Hj. apply foldl_step_lookup.
    + by apply lookup_replicate_2.
    + eapply Forall_impl; [apply Hrows|]. simpl. intros row ->. done.
Qed.

(** The affine map of a dense layer on well-shaped operands. *)
Lemma affine_spec (x w : tensor2 R) (b : list R) :
  well_shaped x → well_shaped w → dim1 x = dim0 w → length b = dim1 w →
  ∃ y,
    rbind (matmul radd rmul rzero x w) (λ product, add_broadcast radd product b) = Ok y ∧
    well_shaped y ∧ dim0 y = dim0 x ∧ dim1 y = dim1 w ∧
    ∀ i j xrow bj, data x !! i = Some xrow → b !! j = Some bj →
      ∃ yrow, data y !! i = Some yrow ∧
        yrow !! j = Some (radd (dot radd rmul rzero xrow (column rzero j (data w))) bj).
Proof.
  intros [Hx0 Hx1] Hw Hinner Hb. unfold matmul.
  rewrite bool_decide_true by done. cbn [rbind]. unfold add_broadcast.
  cbn [dim0 dim1 data]. rewrite bool_decide_true by done.
  eexists. split; [reflexivity|]. cbn [dim0 dim1 data].
  split; [|split; [done|split; [done|]]].
  - split; cbn [dim0 dim1 data]; [by rewrite !length_fmap|].
    rewrite <- list_fmap_compose. apply Forall_fmap, Forall_true. intros xrow.
    cbn. rewrite length_zip_with, (proj1 (row_matmul_spec xrow w Hw)). lia.
  - intros i j xrow bj Hi Hj. eexists.
    rewrite !list_lookup_fmap, Hi. split; [reflexivity|].
    rewrite lookup_zip_with, Hj.
    rewrite (proj2 (row_matmul_spec xrow w Hw)); [done|].
    rewrite <- Hb. by eapply lookup_lt_Some.
Qed.

Lemma add_weight2_shaped (init : nat → nat → R) (d0 d1 : nat) :
  well_shaped (add_weight2 init d0 d1) ∧
  dim0 (add_weight2 init d0 d1) = d0 ∧ dim1 (add_weight2 init d0 d1) = d1.
Proof.
  split; [|done]. split; cbn.
  - by rewrite length_fmap, length_seq.
  - apply Forall_fmap, Forall_true. intros i. cbn.
    by rewrite length_fmap, length_seq.
Qed.

Lemma add_weight1_length (init : nat → R) (d : nat) :
  length (add_weight1 init d) = d.
Proof. unfold add_weight1. by rewrite length_fmap, length_seq. Qed.
End tensor_facts.

Section custom_dense.
Import Tensor.
Context {R : Type} (radd rmul : R → R → R) (rzero : R).
Variable random_normal_w : nat → nat → R.
Variable random_normal_b : nat → R.

Lemma custom_dense_layer (units : option nat) (input_shape : list (option nat))
    (input_dim : nat) (x : tensor2 R) :
  last input_shape = Some (Some input_dim) → well_shaped x → dim1 x = input_dim →
  ∃ layer w b y,
    CustomDense.units (CustomDense.init (R := R) units) = default 32 units ∧
    CustomDense.build random_normal_w random_normal_b (CustomDense.init units) input_shape
    = Ok layer ∧
    CustomDense.units layer = default 32 units ∧
    CustomDense.w layer = Some w ∧ CustomDense.b layer = Some b ∧
    well_shaped w ∧ dim0 w = input_dim ∧ dim1 w = default 32 units ∧
    length b = default 32 units ∧
    CustomDense.call radd rmul rzero layer x = Ok y ∧
    well_shaped y ∧ dim0 y = dim0 x ∧ dim1 y = default 32 units ∧
    (∀ i j xrow bj, data x !! i = Some xrow → b !! j = Some bj →
       ∃ yrow, data y !! i = Some yrow ∧
         yrow !! j = Some (radd (dot radd rmul rzero xrow (column rzero j (data w))) bj)) ∧
    CustomDense.call radd rmul rzero layer x
    = Dense.call radd rmul rzero (Dense.Layer w b true None) x.
Proof.
  intros Hlast Hx Hdim.
  set (u := default 32 units).
  set (w := add_weight2 random_normal_w input_dim u).
  set (b := add_weight1 random_normal_b u).
  destruct (add_weight2_shaped random_normal_w input_dim u) as (Hw & Hw0 & Hw1).
  pose proof (add_weight1_length random_normal_b u) as Hb.
  destruct (affine_spec radd rmul rzero x w b) as (y & Hy & Hys & Hy0 & Hy1 & Hent);
    [exact Hx|exact Hw|exact Hdim|exact Hb|].
  exists (CustomDense.Layer u (Some w) (Some b)), w, b, y.
  split; [done|]. split.
  { unfold CustomDense.build. rewrite Hlast. reflexivity. }
  do 7 (split; [done|]).
  assert (Hcall : CustomDense.call radd rmul rzero
                    (CustomDense.Layer u (Some w) (Some b)) x = Ok y).
  { unfold CustomDense.call. cbn [CustomDense.w CustomDense.b of_option rbind].
    rewrite <- Hy. by destruct (matmul radd rmul rzero x w). }
  split; [done|]. do 4 (split; [done|]).
  rewrite Hcall. unfold Dense.call.
  cbn [Dense.kernel Dense.bias Dense.use_bias Dense.activation].
  rewrite <- Hy. destruct (matmul radd rmul rzero x w) as [p|e]; [|done].
  cbn [rbind]. by destruct (add_broadcast radd p b).
Qed.

Lemma custom_dense_config_layer (units : option nat) (input_shape : list (option nat))
    (input_dim : nat) (x : tensor2 R) :
  last input_shape = Some (Some input_dim) → well_shaped x → dim1 x = input_dim →
  ∃ layer w b y,
    CustomDenseConfig.units (CustomDenseConfig.init (R := R) units) = default 32 units ∧
    CustomDenseConfig.build random_normal_w random_normal_b
      (CustomDenseConfig.init units) input_shape = Ok layer ∧
    CustomDenseConfig.units layer = default 32 units ∧
    CustomDenseConfig.w layer = Some w ∧ CustomDenseConfig.b layer = Some b ∧
    well_shaped w ∧ dim0 w = input_dim ∧ dim1 w = default 32 units ∧
    length b = default 32 units ∧
    CustomDenseConfig.call radd rmul rzero layer x = Ok y ∧
    well_shaped y ∧ dim0 y = dim0 x ∧ dim1 y = default 32 units ∧
    (∀ i j xrow bj, data x !! i = Some xrow → b !! j = Some bj →
       ∃ yrow, data y !! i = Some yrow ∧
         yrow !! j = Some (radd (dot radd rmul rzero xrow (column rzero j (data w))) bj)) ∧
    CustomDenseConfig.call radd rmul rzero layer x
    = Dense.call radd rmul rzero (Dense.Layer w b true None) x ∧
    CustomDenseConfig.get_config layer = {[ "units" := default 32 units ]} ∧
    CustomDenseConfig.get_config (CustomDenseConfig.init (R := R) units)
    = {[ "units" := default 32 units ]} ∧
    CustomDenseConfig.units
      (CustomDenseConfig.from_config (R := R) (CustomDenseConfig.get_config layer))
    = CustomDenseConfig.units layer.
Proof.
  intros Hlast Hx Hdim.
  set (u := default 32 units).
  set (w := add_weight2 random_normal_w input_dim u).
  set (b := add_weight1 random_normal_b u).
  destruct (add_weight2_shaped random_normal_w input_dim u) as (Hw & Hw0 & Hw1).
  pose proof (add_weight1_length random_normal_b u) as Hb.
  destruct (affine_spec radd rmul rzero x w b) as (y & Hy & Hys & Hy0 & Hy1 & Hent);
    [exact Hx|exact Hw|exact Hdim|exact Hb|].
  exists (CustomDenseConfig.Layer u (Some w) (Some b)), w, b, y.
  split; [done|]. split.
  { unfold CustomDenseConfig.build. rewrite Hlast. reflexivity. }
  do 7 (split; [done|]).
  assert (Hcall : CustomDenseConfig.call radd rmul rzero
                    (CustomDenseConfig.Layer u (Some w) (Some b)) x = Ok y).
  { unfold CustomDenseConfig.call.
    cbn [CustomDenseConfig.w CustomDenseConfig.b of_option rbind].
    rewrite <- Hy. by destruct (matmul radd rmul rzero x w). }
  split; [done|]. do 4 (split; [done|]).
  split.
  { rewrite Hcall. unfold Dense.call.
    cbn [Dense.kernel Dense.bias Dense.use_bias Dense.activation].
    rewrite <- Hy. destruct (matmul radd rmul rzero x w) as [p|e]; [|done].
    cbn [rbind]. by destruct (add_broadcast radd p b). }
  split; [done|]. split; [done|].
  unfold CustomDenseConfig.from_config, CustomDenseConfig.get_config.
  cbn [CustomDenseConfig.units]. by rewrite lookup_singleton_eq.
Qed.

(** C9: both [CustomDense] classes have a constructor storing [units]
    (32 by default), a [build] creating [w] of shape [(input_dim, units)]
    and [b] of shape [(units,)], and a [call] computing
    [matmul(inputs, w) + b], entry by entry the dot product of a row of
    the input with a column of [w] plus the bias entry, which is what the
    reference [Dense] layer with bias and no activation computes; the
    second class has [get_config] returning [{'units': units}]. *)
Theorem custom_dense_affine_map (units : option nat) (input_shape : list (option nat))
    (input_dim : nat) (x : tensor2 R) :
  last input_shape = Some (Some input_dim) → well_shaped x → dim1 x = input_dim →
  (∃ layer w b y,
    CustomDense.units (CustomDense.init (R := R) units) = default 32 units ∧
    CustomDense.build random_normal_w random_normal_b (CustomDense.init units) input_shape
    = Ok layer ∧
    CustomDense.units layer = default 32 units ∧
    CustomDense.w layer = Some w ∧ CustomDense.b layer = Some b ∧
    well_shaped w ∧ dim0 w = input_dim ∧ dim1 w = default 32 units ∧
    length b = default 32 units ∧
    CustomDense.call radd rmul rzero layer x = Ok y ∧
    well_shaped y ∧ dim0 y = dim0 x ∧ dim1 y = default 32 units ∧
    (∀ i j xrow bj, data x !! i = Some xrow → b !! j = Some bj →
       ∃ yrow, data y !! i = Some yrow ∧
         yrow !! j = Some (radd (dot radd rmul rzero xrow (column rzero j (data w))) bj)) ∧
    CustomDense.call radd rmul rzero layer x
    = Dense.call radd rmul rzero (Dense.Layer w b true None) x) ∧
  (∃ layer w b y,
    CustomDenseConfig.units (CustomDenseConfig.init (R := R) units) = default 32 units ∧
    CustomDenseConfig.build random_normal_w random_normal_b
      (CustomDenseConfig.init units) input_shape = Ok layer ∧
    CustomDenseConfig.units layer = default 32 units ∧
    CustomDenseConfig.w layer = Some w ∧ CustomDenseConfig.b layer = Some b ∧
    well_shaped w ∧ dim0 w = input_dim ∧ dim1 w = default 32 units ∧
    length b = default 32 units ∧
    CustomDenseConfig.call radd rmul rzero layer x = Ok y ∧
    well_shaped y ∧ dim0 y = dim0 x ∧ dim1 y = default 32 units ∧
    (∀ i j xrow bj, data x !! i = Some xrow → b !! j = Some bj →
       ∃ yrow, data y !! i = Some yrow ∧
         yrow !! j = Some (radd (dot radd rmul rzero xrow (column rzero j (data w))) bj)) ∧
    CustomDenseConfig.call radd rmul rzero layer x
    = Dense.call radd rmul rzero (Dense.Layer w b true None) x ∧
    CustomDenseConfig.get_config layer = {[ "units" := default 32 units ]} ∧
    CustomDenseConfig.get_config (CustomDenseConfig.init (R := R) units)
    = {[ "units" := default 32 units ]} ∧
    CustomDenseConfig.units
      (CustomDenseConfig.from_config (R := R) (CustomDenseConfig.get_config layer))
    = CustomDenseConfig.units layer).
Proof.
  intros Hlast Hx Hdim. split.
  - by apply custom_dense_layer.
  - by apply custom_dense_config_layer.
Qed.
End custom_dense.

Lemma custom_dense_affine_map_witness :
  let x := Tensor.Tensor2 1 2 [[1; 2]%Z] in
  let w_init := λ i j : nat, Z.of_nat (i + j) in
  let b_init := λ j : nat, Z.of_nat j in
  last [None; Some 2] = Some (Some 2) ∧ Tensor.well_shaped x ∧ Tensor.dim1 x = 2 ∧
  ∃ layer y,
    CustomDense.build w_init b_init (CustomDense.init (Some 3)) [None; Some 2] = Ok layer ∧
    CustomDense.call Z.add Z.mul 0%Z layer x = Ok y ∧
    Tensor.dim0 y = 1 ∧ Tensor.dim1 y = 3.
Proof.
  intros x w_init b_init.
  assert (Hlast : last [None; Some 2] = Some (Some 2)) by reflexivity.
  assert (Hx : Tensor.well_shaped x).
  { split; [reflexivity|]. repeat constructor. }
  assert (Hdim : Tensor.dim1 x = 2) by reflexivity.
  split; [done|]. split; [done|]. split; [done|].
  destruct (custom_dense_affine_map Z.add Z.mul 0%Z w_init b_init (Some 3)
              [None; Some 2] 2 x Hlast Hx Hdim)
    as [(layer & w & b & y & _ & Hbuild & _ & _ & _ & _ & _ & _ & _ & Hcall & _ & Hy0 & Hy1 & _) _].
  exists layer, y. done.
Defined.

Example custom_dense_call_example :
  rbind (CustomDense.build (λ i j : nat, Z.of_nat (i + j)) (λ j : nat, Z.of_nat j)
           (CustomDense.init (Some 3)) [None; Some 2])
        (λ layer, CustomDense.call Z.add Z.mul 0%Z layer (Tensor.Tensor2 1 2 [[1; 2]%Z]))
  = Ok (Tensor.Tensor2 1 3 [[2; 6; 10]%Z]).
Proof. vm_compute. reflexivity. Qed.

(** ** The order of the script *)














(** ** Bounds and order of the lookup tables *)

(** X2: Every index of the vectorised corpus is below the vocabulary size. *)
Theorem text_as_int_bound (text : list char) (ints : list nat) :
  text_as_int text = Ok ints → Forall (λ i, i < vocab_size text) ints.
Proof.
  intros Hints. destruct (text_as_int_vectorized text) as (ints' & Hints' & Hlen & Hat).
  rewrite Hints in Hints'. simplify_eq. apply Forall_lookup. intros k i Hk.
  destruct (lookup_lt_is_Some_2 text k) as [c Hc].
  { rewrite <- Hlen. by eapply lookup_lt_Some. }
  destruct (Hat k c Hc) as (i' & Hi' & Hk'). simplify_eq.
  apply char2idx_of_Some in Hi'; [|apply NoDup_vocab]. by eapply lookup_lt_Some.
Qed.

Lemma text_as_int_bound_witness :
  text_as_int [98; 97; 98]%N = Ok [1; 0; 1] ∧
  Forall (λ i, i < vocab_size [98; 97; 98]%N) [1; 0; 1].
Proof.
  assert (H : text_as_int [98; 97; 98]%N = Ok [1; 0; 1]) by (vm_compute; reflexivity).
  split; [exact H|]. exact (text_as_int_bound _ _ H).
Defined.

(** X3: The index mapping keeps the order of the characters: of two
    characters of the vocabulary, the one with the smaller code point has
    the smaller index. *)
Theorem char2idx_monotone (text : list char) (c1 c2 : char) (i1 i2 : nat) :
  char2idx text !! c1 = Some i1 → char2idx text !! c2 = Some i2 →
  (i1 < i2 ↔ (c1 < c2)%N).
Proof.
  intros H1 H2.
  apply char2idx_of_Some in H1; [|apply NoDup_vocab].
  apply char2idx_of_Some in H2; [|apply NoDup_vocab].
  assert (Hs : StronglySorted N.le (vocab text)).
  { apply (StronglySorted_merge_sort N.le). }
  pose proof (NoDup_vocab text) as Hnd.
  assert (Hlt : ∀ i j x y, vocab text !! i = Some x → vocab text !! j = Some y →
                  i < j → (x < y)%N).
  { intros i j x y Hi Hj Hij.
    pose proof (StronglySorted_lookup_le _ _ _ _ _ Hs Hi Hj Hij) as Hle.
    assert (x ≠ y); [|lia]. intros ->.
    pose proof (NoDup_lookup _ _ _ _ Hnd Hi Hj). lia. }
  split.
  - by apply Hlt.
  - intros Hc. destruct (lt_eq_lt_dec i1 i2) as [[Hlt'|Heq]|Hgt]; [done| |].
    + subst. rewrite H1 in H2. simplify_eq. lia.
    + pose proof (Hlt _ _ _ _ H2 H1 Hgt). lia.
Qed.

Lemma char2idx_monotone_witness :
  char2idx [98; 97; 98]%N !! 97%N = Some 0 ∧ char2idx [98; 97; 98]%N !! 98%N = Some 1 ∧
  (0 < 1 ↔ (97 < 98)%N).
Proof.
  assert (H1 : char2idx [98; 97; 98]%N !! 97%N = Some 0) by (vm_compute; reflexivity).
  assert (H2 : char2idx [98; 97; 98]%N !! 98%N = Some 1) by (vm_compute; reflexivity).
  split; [exact H1|]. split; [exact H2|]. exact (char2idx_monotone _ _ _ _ _ H1 H2).
Defined.



(** ** Contents of the training examples *)

Lemma chunks_lookup {A} (n k : nat) (cs : list (list A)) (c : list A) :
  Forall (λ c, length c = n) cs → cs !! k = Some c →
  c = take n (drop (n * k) (concat cs)).
Proof.
  revert k. induction cs as [|c0 cs IH]; intros k Hcs Hk; [done|].
  apply Forall_cons in Hcs as [Hc0 Hcs]. destruct k as [|k]; simpl in Hk.
  - simplify_eq. rewrite Nat.mul_0_r, drop_0. simpl. by rewrite take_app_length.
  - simpl. replace (n * S k) with (length c0 + n * k) by lia.
    rewrite drop_app_add. by apply IH.
Qed.

Lemma sequences_lookup (ints : list nat) (k : nat) (chunk : list nat) :
  sequences ints !! k = Some chunk →
  k < length ints / 101 ∧ chunk = take 101 (drop (101 * k) ints).
Proof.
  intros Hk. destruct (sequences_spec ints) as (Hn & Hfull & Hcat).
  assert (Hlt : k < length ints / 101).
  { rewrite <- Hn. by eapply lookup_lt_Some. }
  split; [done|].
  rewrite (chunks_lookup 101 k _ _ Hfull Hk), Hcat.
  rewrite skipn_firstn_comm, take_take. f_equal. lia.
Qed.

(** X5: Example [k] of the dataset is cut from the index vector at offset
    [101 * k]: its input is the 100 indices from there on and its target
    the 100 indices one position later. *)
Theorem dataset_example_content (ints : list nat) (k : nat)
    (input_example target_example : list nat) :
  dataset ints !! k = Some (input_example, target_example) →
  k < length ints / 101 ∧
  input_example = take 100 (drop (101 * k) ints) ∧
  target_example = take 100 (drop (101 * k + 1) ints).
Proof.
  unfold dataset. rewrite list_lookup_fmap. intros Hk.
  destruct (sequences ints !! k) as [chunk|] eqn:Hchunk; [|done].
  simpl in Hk. destruct (sequences_lookup ints k chunk Hchunk) as [Hlt ->].
  split; [done|]. unfold split_input_target in Hk.
  rewrite py_slice_drop_last, py_slice_drop_first in Hk. simplify_eq.
  assert (Hlen : 101 * k + 101 ≤ length ints).
  { pose proof (Nat.Div0.mul_div_le (length ints) 101). lia. }
  rewrite length_take, length_drop. split.
  - rewrite take_take. f_equal. lia.
  - rewrite skipn_firstn_comm, drop_drop. f_equal.
Qed.

Lemma dataset_example_content_witness :
  dataset (seq 0 205) !! 1 = Some (seq 101 100, seq 102 100) ∧
  seq 101 100 = take 100 (drop (101 * 1) (seq 0 205)).
Proof.
  assert (H : dataset (seq 0 205) !! 1 = Some (seq 101 100, seq 102 100))
    by (vm_compute; reflexivity).
  split; [exact H|]. exact (proj1 (proj2 (dataset_example_content _ _ _ _ H))).
Defined.

(** X6: The dataset is empty exactly when the corpus has fewer than 101
    characters, and in general fewer than 101 trailing indices are left
    out of the examples. *)
Theorem dataset_empty_iff (ints : list nat) :
  (dataset ints = [] ↔ length ints < 101) ∧
  length ints - 101 * length (dataset ints) < 101.
Proof.
  destruct (sequences_spec ints) as (Hn & _ & _).
  assert (Hlen : length (dataset ints) = length ints / 101).
  { unfold dataset. by rewrite length_fmap. }
  pose proof (Nat.div_mod_eq (length ints) 101) as Hdm.
  pose proof (Nat.mod_upper_bound (length ints) 101 ltac:(lia)) as Hmod.
  split.
  - split.
    + intros Hnil. rewrite Hnil in Hlen. change (length []) with 0 in Hlen. lia.
    + intros Hshort. apply nil_length_inv. rewrite Hlen. by apply Nat.div_small.
  - rewrite Hlen. lia.
Qed.

Lemma dataset_empty_iff_witness : dataset (seq 0 100) = [].
Proof. apply (proj1 (dataset_empty_iff (seq 0 100))). vm_compute. lia. Defined.

(** X7: [split_input_target] on any chunk, also a short one: the input
    without its first element is the target without its last; a non-empty
    chunk is its first element followed by the target and the input
    followed by its last element; a chunk of at most one element gives two
    empty halves. *)
Theorem split_input_target_overlap {A} (chunk : list A) :
  let '(input_text, target_text) := split_input_target chunk in
  py_slice (Some 1%Z) None input_text = py_slice None (Some (-1)%Z) target_text ∧
  (∀ x, head chunk = Some x → x :: target_text = chunk) ∧
  (∀ y, last chunk = Some y → input_text ++ [y] = chunk) ∧
  (length chunk ≤ 1 → input_text = [] ∧ target_text = []).
Proof.
  unfold split_input_target.
  rewrite !py_slice_drop_last, !py_slice_drop_first. split; [|split; [|split]].
  - rewrite length_drop, skipn_firstn_comm. f_equal; lia.
  - intros x Hx. destruct chunk; simpl in *; by simplify_eq.
  - intros y Hy. destruct (decide (chunk = [])) as [->|Hne]; [done|].
    destruct (exists_last Hne) as (l & z & ->).
    rewrite last_snoc in Hy. simplify_eq.
    rewrite length_app. simpl. replace (length l + 1 - 1) with (length l) by lia.
    by rewrite take_app_length.
  - intros Hlen. destruct chunk as [|x [|y chunk]]; simpl in *; [done|done|lia].
Qed.

Lemma split_input_target_overlap_witness :
  split_input_target [7] = ([], []) ∧ [1; 2] ++ [3] = [1; 2; 3].
Proof.
  pose proof (split_input_target_overlap [7]) as H1.
  pose proof (split_input_target_overlap [1; 2; 3]) as H3.
  simpl in H1, H3. destruct H1 as (_ & _ & _ & H1). destruct H3 as (_ & _ & H3 & _).
  split; [reflexivity|]. apply H3. reflexivity.
Defined.

(** ** The shuffled training batches *)

Lemma dataset_example_lengths (ints : list nat) :
  Forall (λ ex, length ex.1 = 100 ∧ length ex.2 = 100) (dataset ints).
Proof.
  destruct (sequences_spec ints) as (_ & Hfull & _).
  unfold dataset. apply Forall_fmap. eapply Forall_impl; [apply Hfull|].
  intros chunk Hchunk. unfold compose, split_input_target. cbn [fst snd].
  rewrite py_slice_drop_last, py_slice_drop_first, length_take, length_drop.
  simpl in Hchunk. lia.
Qed.

Lemma elem_of_concat_2 {A} (x : A) (b : list A) (bs : list (list A)) :
  x ∈ b → b ∈ bs → x ∈ concat bs.
Proof.
  intros Hx Hb. induction bs as [|b0 bs IH]; [by apply elem_of_nil in Hb|].
  simpl. apply elem_of_app. apply elem_of_cons in Hb as [<-|Hb]; [by left|].
  right. by apply IH.
Qed.

(** X8: Whatever order the shuffle produces, training sees
    [len(text) // 101 // 64] batches of exactly 64 examples each, every one
    an example of the unshuffled dataset with input and target of length
    100; a corpus shorter than [101 * 64] characters gives no batch
    at all. *)
Theorem training_dataset_batches
    (shuffle : list (list nat * list nat) → list (list nat * list nat))
    (ints : list nat) :
  (∀ l, shuffle l ≡ₚ l) →
  length (training_dataset shuffle ints) = length ints / 101 / 64 ∧
  Forall (λ b, length b = 64 ∧
               Forall (λ ex, ex ∈ dataset ints ∧ length ex.1 = 100 ∧ length ex.2 = 100) b)
         (training_dataset shuffle ints) ∧
  (length ints < 101 * 64 → training_dataset shuffle ints = []).
Proof.
  intros Hperm. unfold training_dataset, batch. change BATCH_SIZE with 64.
  assert (Hpos : length (@nil (list nat * list nat)) < 64) by (simpl; lia).
  assert (Hds : length (dataset ints) = length ints / 101).
  { unfold dataset. rewrite length_fmap. apply sequences_spec. }
  assert (Hlen : length (batch_go 64 true [] (shuffle (dataset ints)))
                 = length ints / 101 / 64).
  { rewrite batch_go_length by done. simpl. by rewrite Hperm, Hds. }
  split; [done|]. split.
  - pose proof (batch_go_full 64 [] (shuffle (dataset ints)) Hpos) as Hfull.
    pose proof (batch_go_concat 64 [] (shuffle (dataset ints)) Hpos) as Hcat.
    apply Forall_forall. intros b Hb. split.
    { by apply (proj1 (Forall_forall _ _) Hfull). }
    apply Forall_forall. intros ex Hex.
    assert (Hin : ex ∈ dataset ints).
    { rewrite <- (Hperm (dataset ints)).
      assert (Hc : ex ∈ concat (batch_go 64 true [] (shuffle (dataset ints)))).
      { by apply (elem_of_concat_2 ex b). }
      rewrite Hcat in Hc. simpl in Hc. apply elem_of_take in Hc as (j & Hj & _).
      by eapply list_elem_of_lookup_2. }
    split; [done|].
    by apply (proj1 (Forall_forall _ _) (dataset_example_lengths ints)).
  - intros Hshort. apply nil_length_inv. rewrite Hlen.
    apply Nat.div_small. apply Nat.Div0.div_lt_upper_bound. lia.
Qed.

Lemma training_dataset_batches_witness :
  (∀ l : list (list nat * list nat), reverse l ≡ₚ l) ∧
  training_dataset reverse (seq 0 300) = [].
Proof.
  assert (Hperm : ∀ l : list (list nat * list nat), reverse l ≡ₚ l).
  { intros l. apply reverse_Permutation. }
  split; [exact Hperm|].
  apply (proj2 (proj2 (training_dataset_batches reverse (seq 0 300) Hperm))).
  vm_compute. lia.
Defined.

(** ** Decoding the chunks *)

Lemma text_as_int_Forall2 (text : list char) (ints : list nat) :
  text_as_int text = Ok ints → Forall2 (λ c i, vocab text !! i = Some c) text ints.
Proof.
  intros Hints. destruct (text_as_int_vectorized text) as (ints' & Hints' & Hlen & Hat).
  rewrite Hints in Hints'. simplify_eq.
  apply Forall2_same_length_lookup. split; [done|].
  intros k c i Hc Hi. destruct (Hat k c Hc) as (i' & Hi' & Hk). simplify_eq.
  by apply char2idx_of_Some in Hi'; [|apply NoDup_vocab].
Qed.

Lemma array_take_idx2char (text cs : list char) (item : list nat) :
  Forall2 (λ c i, vocab text !! i = Some c) cs item →
  array_take (idx2char text) item = Ok (np_str <$> cs).
Proof.
  induction 1 as [|c i cs item Hc _ IH]; [done|].
  simpl. unfold np_getitem. rewrite idx2char_lookup, Hc. simpl. by rewrite IH.
Qed.

Lemma concat_np_str (cs : list char) :
  concat (np_str <$> cs) = filter (λ c, c ≠ 0%N) cs.
Proof.
  induction cs as [|c cs IH]; [done|].
  rewrite fmap_cons, filter_cons. cbn [concat]. rewrite IH. unfold np_str.
  destruct (decide (c = 0%N)) as [->|Hc].
  - rewrite bool_decide_true by done. rewrite decide_False; [done|].
    intros H. by apply H.
  - rewrite bool_decide_false by done. by rewrite decide_True.
Qed.

Lemma filter_Forall_id {A} (P : A → Prop) `{∀ x, Decision (P x)} (l : list A) :
  Forall P l → filter P l = l.
Proof.
  induction 1 as [|x l Hx _ IH]; [done|].
  rewrite filter_cons, decide_True by done. by rewrite IH.
Qed.

(** X1: Decoding chunk [k] of [sequences] with [idx2char] gives the 101
    characters of the text from position [101 * k] on, without the
    [U+0000] among them: exactly that stretch of the text when the text
    has no [U+0000]. *)
Theorem decode_sequences (text : list char) (ints : list nat) (k : nat) (item : list nat) :
  text_as_int text = Ok ints → sequences ints !! k = Some item →
  decode text item = Ok (filter (λ c, c ≠ 0%N) (take 101 (drop (101 * k) text))) ∧
  (0%N ∉ text → decode text item = Ok (take 101 (drop (101 * k) text))).
Proof.
  intros Hints Hitem. destruct (sequences_lookup ints k item Hitem) as [_ ->].
  pose proof (text_as_int_Forall2 text ints Hints) as Hall.
  assert (Hdec : decode text (take 101 (drop (101 * k) ints))
                 = Ok (filter (λ c, c ≠ 0%N) (take 101 (drop (101 * k) text)))).
  { unfold decode.
    rewrite (array_take_idx2char text (take 101 (drop (101 * k) text)))
      by (by apply Forall2_take, Forall2_drop).
    simpl. by rewrite concat_np_str. }
  split; [exact Hdec|]. intros Hnull. rewrite Hdec. f_equal.
  apply filter_Forall_id. apply Forall_forall. intros c Hc ->. apply Hnull.
  apply elem_of_take in Hc as (j & Hj & _). rewrite lookup_drop in Hj.
  by eapply list_elem_of_lookup_2.
Qed.

Lemma decode_sequences_witness :
  text_as_int (replicate 101 97%N) = Ok (replicate 101 0) ∧
  sequences (replicate 101 0) !! 0 = Some (replicate 101 0) ∧
  decode (replicate 101 97%N) (replicate 101 0) = Ok (replicate 101 97%N).
Proof.
  assert (H1 : text_as_int (replicate 101 97%N) = Ok (replicate 101 0))
    by (vm_compute; reflexivity).
  assert (H2 : sequences (replicate 101 0) !! 0 = Some (replicate 101 0))
    by (vm_compute; reflexivity).
  split; [exact H1|]. split; [exact H2|].
  rewrite (proj1 (decode_sequences _ _ _ _ H1 H2)). vm_compute. reflexivity.
Defined.

(** ** More on text generation *)

Lemma vectorize_decoded (v : list char) (ids : list nat) (cs : list char) :
  NoDup v → Forall2 (λ id c, v !! id = Some c) ids cs →
  vectorize (char2idx_of v) cs = Ok ids.
Proof.
  intros Hnd Hdec. induction Hdec as [|id c ids cs Hc _ IH]; [done|].
  simpl. unfold dict_get.
  apply (proj2 (char2idx_of_Some v c id Hnd)) in Hc.
  rewrite Hc. simpl. by rewrite IH.
Qed.

Section generate_text_more.
Context {logits scalar mstate rng : Type}.
Variable model_reset_states : mstate → mstate.
Variable model_call : mstate → list nat → result (mstate * list logits).
Variable tensor_div : logits → scalar → logits.
Variable one_point_zero : scalar.
Variable categorical : rng → list logits → rng * list nat.
Variable text : list char.

(** X9: With a model that returns one row of logits per time step and a
    sampler that draws one class below [vocab_size] per row, a run of
    [generate_text] on a non-empty start string over the vocabulary of a
    corpus without [U+0000] resets the model state once, before the first
    forward pass, then only alternates forward passes and draws (2000
    framework calls, nothing printed); vectorising the generated
    characters again gives exactly the indices that were sampled. *)
Theorem generate_text_trace_roundtrip (start_string : list char) (w : world) :
  framework_ok model_call categorical (vocab_size text) →
  start_string ≠ [] →
  Forall (λ c, c ∈ vocab text) start_string →
  0%N ∉ text →
  ∃ generated evs w',
    generate_text model_reset_states model_call tensor_div one_point_zero categorical
      (char2idx text) (idx2char text) start_string w
    = (Ok (start_string ++ generated), w') ∧
    trace w' = trace w ++ ResetStates :: evs ∧
    length evs = 2000 ∧ resets_and_prints evs = [] ∧
    vectorize (char2idx text) generated = Ok (sampled_ids evs).
Proof.
  intros Hfw Hne Hvocab Hnull.
  destruct (vectorize_total (char2idx text) start_string)
    as (start_ids & Hvec & Hlen & _).
  { intros c Hc. apply char2idx_is_Some, elem_of_vocab.
    by apply (proj1 (Forall_forall _ _) Hvocab). }
  assert (Hne' : start_ids ≠ []).
  { intros ->. destruct start_string; [done|]. simpl in Hlen. lia. }
  set (w0 := log ResetStates
               (World (model_reset_states (model_state w)) (rng_state w) (trace w))).
  destruct (for_range_generate_ok model_call tensor_div one_point_zero categorical text Hfw
              1000 0 start_ids [] w0 Hne')
    as (ids & strs & evs & input_eval' & w' & Hloop & Htr & Hrun & Hids & Hdec).
  cbn [w0 log model_state rng_state trace] in Htr, Hrun.
  destruct (spec_sampling_run_facts _ _ _ _ _ _ _ _ _ _ _ _ Hrun)
    as (_ & Hn & _ & Hsm & Hrp).
  exists (concat strs), evs, w'. split.
  { unfold generate_text, bind at 1, lift. rewrite Hvec.
    unfold bind at 1, reset_states. fold w0.
    unfold bind at 1. rewrite Hloop. reflexivity. }
  split; [rewrite Htr; by rewrite <- app_assoc|].
  split; [exact Hn|]. split; [exact Hrp|].
  rewrite Hsm. apply vectorize_decoded; [apply NoDup_vocab|].
  by apply decoded_characters.
Qed.

(** X10: On the empty start string [generate_text] does not return. It
    resets the model and runs the forward pass on the empty input; if the
    model raises there (as the script's LSTM does), that exception leaves
    [generate_text] before any draw; if the model returns, it has no row
    of logits, the sampler draws nothing, and reading the last draw raises
    [InvalidArgumentError]. Nothing is generated either way. *)
Theorem generate_text_empty_start (w : world) :
  no_row_without_step model_call →
  (∀ g ps, length (categorical g ps).2 = length ps) →
  ∃ e w',
    generate_text model_reset_states model_call tensor_div one_point_zero categorical
      (char2idx text) (idx2char text) [] w
    = (Raise e, w') ∧
    ((model_call (model_reset_states (model_state w)) [] = Raise e ∧
      trace w' = trace w ++ [ResetStates; Forward [] (Raise e)]) ∨
     (e = InvalidArgumentError ∧
      ∃ st', model_call (model_reset_states (model_state w)) [] = Ok (st', []) ∧
        trace w' = trace w ++ [ResetStates; Forward [] (Ok []); Categorical [] []])).
Proof.
  intros Hnorow Hrows.
  unfold generate_text, bind at 1, lift. cbn [vectorize].
  unfold bind at 1, reset_states. unfold bind at 1.
  change 1000 with (S 999). cbn [for_range]. unfold bind at 1.
  unfold generate_step, bind at 1, call_model. cbn [model_state log rng_state trace].
  destruct (model_call (model_reset_states (model_state w)) []) as [[st predictions]|e]
    eqn:Hcall.
  - pose proof (Hnorow _ _ _ Hcall) as ->. cbn [fmap list_fmap].
    unfold bind at 1, random_categorical. cbn [model_state log rng_state trace].
    pose proof (Hrows (rng_state w) []) as Hlen.
    destruct (categorical _ []) as [g drawn]. simpl in Hlen.
    apply nil_length_inv in Hlen as ->.
    exists InvalidArgumentError. eexists. split; [reflexivity|]. right.
    split; [done|]. exists st. split; [done|].
    unfold log. cbn [trace]. by rewrite <- !app_assoc.
  - exists e. eexists. split; [reflexivity|]. left. split; [done|].
    unfold log. cbn [trace]. by rewrite <- !app_assoc.
Qed.
End generate_text_more.

Lemma generate_text_trace_roundtrip_witness :
  [97]%N ≠ [] ∧ Forall (λ c, c ∈ vocab [98; 97]%N) [97]%N ∧ (0%N ∉ [98; 97]%N) ∧
  ∃ generated, (toy_generate_text [98; 97]%N [97]%N).1 = Ok ([97]%N ++ generated).
Proof.
  assert (Hne : [97]%N ≠ []) by done.
  assert (Hvocab : Forall (λ c, c ∈ vocab [98; 97]%N) [97]%N).
  { constructor; [|constructor]. apply elem_of_vocab. by right; left. }
  assert (Hfw : framework_ok toy_call (toy_categorical (vocab_size [98; 97]%N))
                  (vocab_size [98; 97]%N)).
  { apply toy_framework_ok. vm_compute. lia. }
  assert (Hnull : 0%N ∉ [98; 97]%N).
  { intros H. apply elem_of_cons in H as [H|H]; [done|].
    apply elem_of_cons in H as [H|H]; [done|]. by apply elem_of_nil in H. }
  split; [exact Hne|]. split; [exact Hvocab|]. split; [exact Hnull|].
  destruct (generate_text_trace_roundtrip toy_reset toy_call toy_div ()
              (toy_categorical (vocab_size [98; 97]%N)) [98; 97]%N
              [97]%N (World 7 0 []) Hfw Hne Hvocab Hnull)
    as (generated & evs & w' & Hrun & _).
  exists generated. unfold toy_generate_text. rewrite Hrun. reflexivity.
Defined.

Lemma generate_text_empty_start_witness :
  no_row_without_step toy_call ∧
  ∃ e, (toy_generate_text [98; 97]%N []).1 = Raise e.
Proof.
  assert (Hnorow : no_row_without_step toy_call) by (intros st st' ps H; done).
  assert (Hrows : ∀ g ps, length (toy_categorical (vocab_size [98; 97]%N) g ps).2 = length ps).
  { intros g ps. simpl. by rewrite length_fmap. }
  split; [exact Hnorow|].
  destruct (generate_text_empty_start toy_reset toy_call toy_div ()
              (toy_categorical (vocab_size [98; 97]%N)) [98; 97]%N (World 7 0 [])
              Hnorow Hrows)
    as (e & w' & Hrun & _).
  exists e. unfold toy_generate_text. rewrite Hrun. reflexivity.
Defined.

(** ** More on checkpoints *)

(** X11: Formatting the checkpoint prefix never fails, stays under the
    checkpoint directory, and gives different paths for different epoch
    numbers. *)
Theorem format_checkpoint_prefix_inj (n m : nat) :
  format_checkpoint_prefix n = Ok (checkpoint_dir +:+ "/ckpt_" +:+ py_str n) ∧
  (format_checkpoint_prefix n = format_checkpoint_prefix m → n = m).
Proof.
  split; [by rewrite format_checkpoint_prefix_eq|].
  rewrite !format_checkpoint_prefix_eq. unfold spec_checkpoint_path.
  intros Heq. injection Heq as Heq.
  apply (inj (String.app "")) in Heq. by apply (inj pretty) in Heq.
Qed.

Lemma format_checkpoint_prefix_inj_witness :
  format_checkpoint_prefix 7 = format_checkpoint_prefix (3 + 4) ∧ 7 = 3 + 4.
Proof.
  assert (H : format_checkpoint_prefix 7 = format_checkpoint_prefix (3 + 4)) by reflexivity.
  split; [exact H|]. exact (proj2 (format_checkpoint_prefix_inj 7 (3 + 4)) H).
Defined.

Lemma count_fifth_epochs (n : nat) :
  length (filter (λ epoch, (epoch + 1) `mod` 5 = 0) (seq 0 n)) = n / 5.
Proof.
  induction n as [|n IH]; [done|].
  rewrite seq_S, filter_app, length_app, IH. cbn [Nat.add].
  pose proof (Nat.div_mod_eq (n + 1) 5) as H1. pose proof (Nat.div_mod_eq n 5) as H2.
  pose proof (Nat.mod_upper_bound n 5 ltac:(lia)) as H3.
  pose proof (Nat.mod_upper_bound (n + 1) 5 ltac:(lia)) as H4.
  replace (S n) with (n + 1) by lia. rewrite filter_cons, filter_nil.
  destruct (decide ((n + 1) `mod` 5 = 0)) as [H|H]; cbn [length];
    revert H H1 H2 H3 H4;
    generalize (n `mod` 5) ((n + 1) `mod` 5) ((n + 1) `div` 5) (n `div` 5); intros; lia.
Qed.

(** X12: The custom training loop for any positive number of epochs, on a
    dataset with at least one batch: it runs to the end, writes one
    checkpoint per fifth epoch and one more after the loop
    ([epochs // 5 + 1] saves, all weights-only); the last save goes to the
    checkpoint numbered [epochs - 1], and when [epochs] is a multiple of 5
    that path was also the one written just before. *)
Theorem custom_training_saves (nbatches epochs : nat) (tr : list train_event) :
  0 < nbatches → 0 < epochs →
  ∃ tr',
    custom_training nbatches epochs tr = (Ok (), tr ++ tr') ∧
    saves tr'
    = ((λ epoch, (spec_checkpoint_path epoch, true))
         <$> filter (λ epoch, (epoch + 1) `mod` 5 = 0) (seq 0 epochs))
      ++ [(spec_checkpoint_path (epochs - 1), true)] ∧
    length (saves tr') = epochs / 5 + 1 ∧
    last (saves tr') = Some (spec_checkpoint_path (epochs - 1), true) ∧
    (epochs `mod` 5 = 0 →
     ∃ before, saves tr' = before ++ [(spec_checkpoint_path (epochs - 1), true);
                                      (spec_checkpoint_path (epochs - 1), true)]).
Proof.
  intros Hpos Hepochs. eexists. split; [by apply custom_training_trace|].
  assert (Hsaves : saves (flat_map (spec_epoch_events nbatches) (seq 0 epochs)
                          ++ [SaveWeights (spec_checkpoint_path (epochs - 1))])
                   = ((λ epoch, (spec_checkpoint_path epoch, true))
                        <$> filter (λ epoch, (epoch + 1) `mod` 5 = 0) (seq 0 epochs))
                     ++ [(spec_checkpoint_path (epochs - 1), true)]).
  { by rewrite saves_app, saves_custom_epochs. }
  rewrite Hsaves. split; [done|]. split.
  { rewrite length_app, length_fmap, count_fifth_epochs. done. }
  split; [apply last_snoc|].
  intros Hmod. destruct epochs as [|n]; [lia|].
  rewrite seq_S, filter_app, filter_cons, filter_nil. cbn [Nat.add].
  rewrite decide_True by (by replace (n + 1) with (S n) by lia).
  rewrite fmap_app. simpl. eexists. rewrite <- app_assoc. simpl.
  by replace (n - 0) with n by lia.
Qed.

Lemma custom_training_saves_witness :
  0 < 1 ∧ 0 < 5 ∧
  saves (custom_training 1 5 []).2
  = [(spec_checkpoint_path 4, true); (spec_checkpoint_path 4, true)].
Proof.
  assert (H1 : 0 < 1) by lia. assert (H5 : 0 < 5) by lia.
  split; [exact H1|]. split; [exact H5|].
  destruct (custom_training_saves 1 5 [] H1 H5) as (tr' & Hrun & Hsaves & _).
  rewrite Hrun. clear Hrun. exact Hsaves.
Defined.

(** X13: The edge cases of the custom training loop. On a dataset without
    batches the name [loss] is never bound to a number, so the first
    epoch ends in [TypeError] when the loss is formatted, before any
    checkpoint is written; with zero epochs the loop binds no [epoch] and
    the save after the loop raises [NameError]. *)
Theorem custom_training_edge_cases (nbatches epochs : nat) (tr : list train_event) :
  (0 < epochs → custom_training 0 epochs tr = (Raise TypeError, tr ++ [TrainReset])) ∧
  custom_training nbatches 0 tr = (Raise (NameError "epoch"), tr).
Proof.
  split; [|reflexivity].
  intros Hepochs. destruct epochs as [|n]; [lia|].
  unfold custom_training. cbn [for_range]. unfold bind at 1, bind at 1.
  unfold train_epoch, bind at 1, emit at 1. unfold bind at 1.
  rewrite train_batches_trace. unfold spec_batch_events. cbn [seq flat_map].
  rewrite app_nil_r. unfold bind at 1.
  destruct ((0 + 1) `mod` 5 =? 0) eqn:Hmod; [by vm_compute in Hmod|].
  unfold ret at 1. unfold bind at 1, lift at 1. done.
Qed.

Lemma custom_training_edge_cases_witness :
  0 < 10 ∧ saves (custom_training 0 10 []).2 = [].
Proof.
  assert (H : 0 < 10) by lia. split; [exact H|].
  rewrite (proj1 (custom_training_edge_cases 0 10 []) H). reflexivity.
Defined.

(** X14: The custom loop numbers its checkpoints from 0 and [fit] from 1.
    After [fit] has run, every file the custom loop writes ([ckpt_4] and
    [ckpt_9]) is one [fit] had written already; the loop never writes
    [ckpt_5] or [ckpt_10], the checkpoints of its own fifth and tenth
    epochs in [fit]'s numbering. *)
Theorem custom_training_overwrites (nbatches : nat) (tr : list train_event) :
  0 < nbatches →
  ∃ tr_fit tr_loop,
    fit_script nbatches tr = (Ok (), tr ++ tr_fit) ∧
    custom_training_script nbatches (tr ++ tr_fit) = (Ok (), (tr ++ tr_fit) ++ tr_loop) ∧
    Forall (λ save, save ∈ saves tr_fit) (saves tr_loop) ∧
    Forall (λ save, save.1 ≠ spec_checkpoint_path 5 ∧ save.1 ≠ spec_checkpoint_path 10)
           (saves tr_loop) ∧
    (spec_checkpoint_path 5, true) ∈ saves tr_fit ∧
    (spec_checkpoint_path 10, true) ∈ saves tr_fit.
Proof.
  intros Hpos. eexists _, _.
  split; [apply model_fit_trace|].
  split; [apply (custom_training_trace nbatches 10); [done|lia]|].
  rewrite saves_app, saves_custom_epochs, saves_fit_epochs.
  repeat split.
  - apply (bool_decide_unpack _). vm_compute. reflexivity.
  - apply (bool_decide_unpack _). vm_compute. reflexivity.
  - apply (bool_decide_unpack _). vm_compute. reflexivity.
  - apply (bool_decide_unpack _). vm_compute. reflexivity.
Qed.

Lemma custom_training_overwrites_witness :
  0 < 1 ∧ ∃ tr_fit, fit_script 1 [] = (Ok (), tr_fit) ∧
    (spec_checkpoint_path 10, true) ∈ saves tr_fit.
Proof.
  assert (H : 0 < 1) by lia. split; [exact H|].
  destruct (custom_training_overwrites 1 [] H)
    as (tr_fit & tr_loop & Hfit & _ & _ & _ & _ & H10).
  exists tr_fit. split; [exact Hfit|exact H10].
Defined.

(** ** Errors of the custom dense layers *)

Section dense_errors.
Import Tensor.
Context {R : Type} (radd rmul : R → R → R) (rzero : R).
Variable random_normal_w : nat → nat → R.
Variable random_normal_b : nat → R.

(** X15: What the custom dense layers refuse, both classes alike: [call]
    on a layer that was never built finds no attribute [w]; [build] raises
    on an empty input shape and on an unknown last dimension; and a built
    layer raises on an input whose last dimension is not the one it was
    built for. *)
Theorem custom_dense_errors (units : option nat) (input_shape : list (option nat))
    (input_dim : nat) (x : tensor2 R) :
  CustomDense.call radd rmul rzero (CustomDense.init units) x = Raise (AttributeError "w") ∧
  CustomDenseConfig.call radd rmul rzero (CustomDenseConfig.init units) x
  = Raise (AttributeError "w") ∧
  CustomDense.build random_normal_w random_normal_b (CustomDense.init units) []
  = Raise IndexError ∧
  CustomDenseConfig.build random_normal_w random_normal_b (CustomDenseConfig.init units) []
  = Raise IndexError ∧
  CustomDense.build random_normal_w random_normal_b (CustomDense.init units)
    (input_shape ++ [None]) = Raise ValueError ∧
  CustomDenseConfig.build random_normal_w random_normal_b (CustomDenseConfig.init units)
    (input_shape ++ [None]) = Raise ValueError ∧
  (dim1 x ≠ input_dim →
   ∃ layer layer' e e',
     CustomDense.build random_normal_w random_normal_b (CustomDense.init units)
       (input_shape ++ [Some input_dim]) = Ok layer ∧
     CustomDense.call radd rmul rzero layer x = Raise e ∧
     CustomDenseConfig.build random_normal_w random_normal_b (CustomDenseConfig.init units)
       (input_shape ++ [Some input_dim]) = Ok layer' ∧
     CustomDenseConfig.call radd rmul rzero layer' x = Raise e').
Proof.
  split; [done|]. split; [done|]. split; [done|]. split; [done|]. split.
  { unfold CustomDense.build. by rewrite last_snoc. }
  split.
  { unfold CustomDenseConfig.build. by rewrite last_snoc. }
  intros Hdim.
  set (w := add_weight2 random_normal_w input_dim (default 32 units)).
  set (b := add_weight1 random_normal_b (default 32 units)).
  exists (CustomDense.Layer (default 32 units) (Some w) (Some b)),
         (CustomDenseConfig.Layer (default 32 units) (Some w) (Some b)),
         ValueError, ValueError.
  unfold CustomDense.build, CustomDenseConfig.build. rewrite !last_snoc.
  cbn [of_option rbind]. split; [reflexivity|].
  unfold CustomDense.call, CustomDenseConfig.call.
  cbn [CustomDense.w CustomDense.b CustomDenseConfig.w CustomDenseConfig.b of_option rbind].
  unfold matmul. rewrite !bool_decide_false by done. done.
Qed.
End dense_errors.

Lemma custom_dense_errors_witness :
  ∃ layer e,
    CustomDense.build (λ i j : nat, Z.of_nat (i + j)) (λ j : nat, Z.of_nat j)
      (CustomDense.init (Some 3)) ([None] ++ [Some 2]) = Ok layer ∧
    CustomDense.call Z.add Z.mul 0%Z layer (Tensor.Tensor2 1 3 [[1; 2; 3]%Z]) = Raise e.
Proof.
  assert (Hdim : Tensor.dim1 (Tensor.Tensor2 1 3 [[1; 2; 3]%Z]) ≠ 2) by (simpl; lia).
  destruct (custom_dense_errors Z.add Z.mul 0%Z (λ i j : nat, Z.of_nat (i + j))
              (λ j : nat, Z.of_nat j) (Some 3) [None] 2 (Tensor.Tensor2 1 3 [[1; 2; 3]%Z]))
    as (_ & _ & _ & _ & _ & _ & H).
  destruct (H Hdim) as (layer & _ & e & _ & Hbuild & Hcall & _).
  exists layer, e. split; [exact Hbuild|exact Hcall].
Defined.

(** ** The custom recurrent layers *)

Section custom_rnn.
Context {X V O : Type}.
Variable projection_1 : X → V.
Variable projection_2 : V → V.
Variable tensor_add : V → V → V.
Variable zeros : V.
Variable classifier : list V → O.

Lemma custom_rnn_loop (n t : nat) (inputs : list X) (state : V) (outputs : list V) :
  t + n = length inputs →
  ∃ state',
    CustomRNN.loop projection_1 projection_2 tensor_add n t inputs (state, outputs)
    = Ok (state', outputs ++ CustomRNN.spec_outputs projection_1 projection_2 tensor_add
                               state (drop t inputs)) ∧
    state' = default state
               (last (CustomRNN.spec_outputs projection_1 projection_2 tensor_add
                        state (drop t inputs))).
Proof.
  revert t state outputs. induction n as [|n IH]; intros t state outputs Hlen.
  - exists state. rewrite drop_ge by lia. simpl. by rewrite app_nil_r.
  - destruct (lookup_lt_is_Some_2 inputs t) as [x Hx]; [lia|].
    cbn [CustomRNN.loop]. unfold CustomRNN.step at 1. rewrite Hx. cbn [of_option rbind].
    destruct (IH (S t) (tensor_add (projection_1 x) (projection_2 state))
                (outputs ++ [tensor_add (projection_1 x) (projection_2 state)]))
      as (state' & Hloop & Hstate); [lia|].
    exists state'. rewrite Hloop, <- app_assoc.
    rewrite (drop_S inputs x t Hx). cbn [CustomRNN.spec_outputs]. split; [done|].
    rewrite Hstate, last_cons.
    by destruct (last (CustomRNN.spec_outputs _ _ _ _ (drop (S t) inputs))).
Qed.

Lemma spec_outputs_length (state : V) (xs : list X) :
  length (CustomRNN.spec_outputs projection_1 projection_2 tensor_add state xs) = length xs.
Proof. revert state. induction xs as [|x xs IH]; intros state; [done|]. simpl. by rewrite IH. Qed.

(** X16: [CustomRNN.call] on at least one time step reads every slice within
    bounds, computes one output per time step by the recurrence
    [y(t) = projection_1(x(t)) + projection_2(y(t-1))] started from the
    zero state, and hands the stacked outputs to the classifier; on zero
    time steps it raises, because there is nothing to stack. *)
Theorem custom_rnn_call (inputs : list X) :
  (inputs ≠ [] →
   ∃ features,
     CustomRNN.call projection_1 projection_2 tensor_add zeros classifier inputs
     = Ok (classifier features) ∧
     features = CustomRNN.spec_outputs projection_1 projection_2 tensor_add zeros inputs ∧
     length features = length inputs ∧
     (∀ x, inputs !! 0 = Some x →
        features !! 0 = Some (tensor_add (projection_1 x) (projection_2 zeros))) ∧
     (∀ t x y, inputs !! (S t) = Some x → features !! t = Some y →
        features !! (S t) = Some (tensor_add (projection_1 x) (projection_2 y)))) ∧
  (∃ e, CustomRNN.call projection_1 projection_2 tensor_add zeros classifier [] = Raise e).
Proof.
  split; [|by eexists].
  intros Hne. eexists. split; [|split; [reflexivity|split; [apply spec_outputs_length|]]].
  - unfold CustomRNN.call.
    destruct (custom_rnn_loop (length inputs) 0 inputs zeros []) as (state' & Hloop & _);
      [done|].
    rewrite Hloop, drop_0. cbn [rbind snd app].
    destruct inputs as [|x inputs]; [done|]. reflexivity.
  - split.
    + intros x Hx. destruct inputs as [|x0 inputs]; [done|]. simpl in Hx. by simplify_eq.
    + generalize zeros. induction inputs as [|x0 inputs IH]; intros state t x y Hx Hy; [done|].
      cbn [CustomRNN.spec_outputs] in *. destruct t as [|t].
      * simpl in Hy. simplify_eq. destruct inputs as [|x1 inputs]; [done|].
        simpl in Hx. by simplify_eq.
      * simpl in Hx, Hy. simpl. destruct inputs as [|x1 inputs]; [done|].
        by apply (IH ltac:(done) _ t x y).
Qed.

End custom_rnn.

Lemma custom_rnn_call_witness :
  [1; 2; 3] ≠ [] ∧
  CustomRNN.call (λ x : nat, x) (λ y : nat, 2 * y) Nat.add 0 (λ ys, ys) [1; 2; 3]
  = Ok [1; 4; 11].
Proof.
  assert (Hne : [1; 2; 3] ≠ []) by done. split; [exact Hne|].
  destruct (custom_rnn_call (λ x : nat, x) (λ y : nat, 2 * y) Nat.add 0 (λ ys, ys) [1; 2; 3])
    as [H _].
  destruct (H Hne) as (features & Hcall & -> & _). exact Hcall.
Defined.
